(** * parkwalk-core: the timestamp challenge codec and the park state machine

    A shallow embedding of [parkwalk-core.ts] and [utils.ts].

    - JavaScript strings are [string]s.  All the text the program handles on
      its accepting paths is ASCII (decimal digits, hexadecimal digits and
      the separator), and ASCII text is modelled exactly.
    - A [Buffer] is a [list byte].
    - A [number] is [NaN] or an integer [Num z]; integers are exact in
      JavaScript up to [Number.MAX_SAFE_INTEGER], and [Number_toString] and
      [parseInt] below are those of JavaScript on that range.
    - A [throw] is the [Throw] case of [result]; the fp-ts [State] of
      [randN] and [createChallenge] is explicit state passing.
    - Node's [Buffer] and cipher objects are modelled from their documented
      behaviour: hexadecimal text is read leniently, the cipher works in
      CBC mode with PKCS#7 padding.
    - The generator ([pure-rand]) and the block cipher under the CBC mode
      are interfaces, the classes [RandomGenerator] and [BlockCipher].
      AES-128 itself is given as an instance, following FIPS-197, checked
      on the examples of FIPS-197 and NIST SP 800-38A, and proved to be
      invertible. *)

From Stdlib Require Import ZArith NArith List String Ascii Bool Lia Btauto.
From Stdlib Require Import Strings.Byte.
Import ListNotations.

Local Open Scope string_scope.
Local Open Scope Z_scope.

(** ** Exceptions *)

Inductive exn : Type :=
| Error (message : string)
| TypeError (message : string).

Inductive result (A : Type) : Type :=
| Ok (a : A)
| Throw (e : exn).

Arguments Ok {A} a.
Arguments Throw {A} e.

Definition bind {A B : Type} (r : result A) (k : A -> result B) : result B :=
  match r with
  | Ok a => k a
  | Throw e => Throw e
  end.

Notation "x <- r ;; k" := (bind r (fun x => k))
  (at level 61, r at next level, right associativity).

Definition throws {A : Type} (r : result A) : Prop :=
  exists e, r = Throw e.

(** ** fp-ts [Either] and io-ts validation *)

Inductive Either (E A : Type) : Type :=
| Left (left : E)
| Right (right : A).

Arguments Left {E A} left.
Arguments Right {E A} right.

(** io-ts [Errors]: the report keeps the name of the codec that refused the
    value (the text of [PathReporter] is not modelled further). *)
Definition Errors : Type := string.

(** [t.brand(codec, predicate, name)]: the value must pass [codec] and then
    satisfy [predicate]. *)
Definition brand {I A : Type} (codec : I -> Either Errors A)
    (predicate : A -> bool) (name : string) (i : I) : Either Errors A :=
  match codec i with
  | Left e => Left e
  | Right a => if predicate a then Right a else Left name
  end.

(** ** Numbers *)

Inductive number : Type :=
| NaN
| Num (z : Z).

Definition isNaN (n : number) : bool :=
  match n with
  | NaN => true
  | Num _ => false
  end.

Definition MAX_SAFE_INTEGER : Z := 2 ^ 53 - 1.

Definition isSafeInteger (n : number) : bool :=
  match n with
  | NaN => false
  | Num z => (- MAX_SAFE_INTEGER <=? z) && (z <=? MAX_SAFE_INTEGER)
  end.

(** *** [Number.prototype.toString] *)

Definition digitChar (d : Z) : ascii :=
  ascii_of_N (48 + Z.to_N d).

(** The decimal digits of [z >= 0], most significant first, in front of
    [acc].  [fuel] bounds the number of divisions. *)
Fixpoint decimalDigits (fuel : nat) (z : Z) (acc : string) : string :=
  let acc' := String (digitChar (z mod 10)) acc in
  match fuel with
  | O => acc'
  | S fuel' => if z <? 10 then acc' else decimalDigits fuel' (z / 10) acc'
  end.

Definition natToString (z : Z) : string :=
  decimalDigits (Z.to_nat (Z.log2 z)) z "".

Definition Number_toString (n : number) : string :=
  match n with
  | NaN => "NaN"
  | Num z => if z <? 0 then String "-" (natToString (- z)) else natToString z
  end.

(** *** [parseInt(s, 10)] *)

Definition isWhiteSpace (c : ascii) : bool :=
  match N_of_ascii c with
  | 9%N | 10%N | 11%N | 12%N | 13%N | 32%N => true
  | _ => false
  end.

Definition isDigit (c : ascii) : bool :=
  let n := N_of_ascii c in (48 <=? n)%N && (n <=? 57)%N.

Definition digitValue (c : ascii) : Z :=
  Z.of_N (N_of_ascii c) - 48.

Fixpoint trimStart (s : string) : string :=
  match s with
  | String c rest => if isWhiteSpace c then trimStart rest else s
  | EmptyString => s
  end.

(** The longest prefix of decimal digits. *)
Fixpoint takeDigits (s : string) : string :=
  match s with
  | String c rest => if isDigit c then String c (takeDigits rest) else ""
  | EmptyString => ""
  end.

Fixpoint digitsValue (acc : Z) (s : string) : Z :=
  match s with
  | String c rest => digitsValue (10 * acc + digitValue c) rest
  | EmptyString => acc
  end.

Definition parseInt (s : string) : number :=
  let trimmed := trimStart s in
  let '(sign, body) :=
    match trimmed with
    | String "-" rest => (-1, rest)
    | String "+" rest => (1, rest)
    | _ => (1, trimmed)
    end in
  match takeDigits body with
  | EmptyString => NaN
  | digits => Num (sign * digitsValue 0 digits)
  end.

(** ** utils.ts *)

(** The optional argument of [getFromEitherC]: absent, a message, or a
    function from the validation error to the exception. *)
Inductive Thrower (Err : Type) : Type :=
| NoThrower
| Message (e : string)
| Handler (e : Err -> exn).

Arguments NoThrower {Err}.
Arguments Message {Err} e.
Arguments Handler {Err} e.

Definition getFromEitherC {Err A : Type} (e : Thrower Err) (v : Either Err A)
  : result A :=
  match v with
  | Left l =>
      match e with
      | Handler f => Throw (f l)
      | Message "" | NoThrower => Throw (Error "panic! getFromValidation: Left")
      | Message m => Throw (Error m)
      end
  | Right r => Ok r
  end.

Definition castEitherC {Err A : Type} := @getFromEitherC Err A.

(** [t.number] refuses [NaN]; [t.Int] brands it with [Number.isInteger]. *)
Definition number_decode (n : number) : Either Errors number :=
  if isNaN n then Left "number" else Right n.

Definition Number_isInteger (n : number) : bool :=
  match n with
  | NaN => false
  | Num _ => true
  end.

Definition Int_decode : number -> Either Errors number :=
  brand number_decode Number_isInteger "Int".

(** [n >= 0] *)
Definition geZero (n : number) : bool :=
  match n with
  | NaN => false
  | Num z => 0 <=? z
  end.

Definition nonNegativeIntegerCodec_decode : number -> Either Errors number :=
  brand Int_decode geZero "NonNegativeInteger".

Definition castNonNegativeInteger (p : number) : result number :=
  castEitherC
    (Message ("panic! wrong non negative integer " ++ Number_toString p
              ++ " for castNonNegativeInteger"))
    (nonNegativeIntegerCodec_decode p).

Definition showDecodeError (e : Errors) : string :=
  "Invalid value supplied to : " ++ e.

Definition parseNonNegativeInteger (s : string) : result number :=
  let n := parseInt s in
  if isNaN n then
    Throw (Error ("parseNonNegativeInteger: " ++ s ++ " is not a number"))
  else if negb (String.eqb (Number_toString n) s) then
    Throw (Error ("parseNonNegativeInteger: " ++ s ++ " is not a valid number"))
  else castNonNegativeInteger n.

(** ** Buffers and their hexadecimal text *)

Definition Buffer : Type := list byte.

Definition byteOfN (n : N) : byte :=
  match Byte.of_N (n mod 256) with
  | Some b => b
  | None => x00
  end.

(** An array element as a byte, as [Buffer.from(array)] stores it: the
    integer modulo 256; [undefined] and [NaN] become 0. *)
Definition toUint8 (v : option number) : byte :=
  match v with
  | Some (Num z) => byteOfN (Z.to_N (z mod 256))
  | Some NaN | None => x00
  end.

Definition Buffer_from_array (a : list (option number)) : Buffer :=
  map toUint8 a.

Definition hexDigit (n : N) : ascii :=
  if (n <? 10)%N then ascii_of_N (48 + n) else ascii_of_N (87 + n).

Definition byteToHex (b : byte) : string :=
  String (hexDigit (Byte.to_N b / 16)) (String (hexDigit (Byte.to_N b mod 16)) "").

(** [buf.toString('hex')] *)
Fixpoint Buffer_toString_hex (b : Buffer) : string :=
  match b with
  | [] => ""
  | x :: rest => byteToHex x ++ Buffer_toString_hex rest
  end.

Definition hexValue (c : ascii) : option N :=
  let n := N_of_ascii c in
  if (48 <=? n)%N && (n <=? 57)%N then Some (n - 48)%N
  else if (97 <=? n)%N && (n <=? 102)%N then Some (n - 87)%N
  else if (65 <=? n)%N && (n <=? 70)%N then Some (n - 55)%N
  else None.

(** [Buffer.from(s, 'hex')]: pairs of hexadecimal digits are decoded up to
    the first pair that is not one; the rest of the text is dropped (Node
    documents the truncation), and no error is raised. *)
Fixpoint Buffer_from_hex (s : string) : Buffer :=
  match s with
  | String c1 (String c2 rest) =>
      match hexValue c1, hexValue c2 with
      | Some h, Some l => byteOfN (16 * h + l) :: Buffer_from_hex rest
      | _, _ => []
      end
  | _ => []
  end.

(** UTF-8 text of a buffer and back.  ASCII is exact.  A byte above 127 is
    kept as a character above 127 (Node would decode a multi-byte sequence
    or put U+FFFD); such a character is neither a digit, a sign nor ASCII
    white space, whichever it is. *)
Definition Buffer_from_utf8 (s : string) : Buffer := list_byte_of_string s.
Definition Buffer_toString_utf8 (b : Buffer) : string := string_of_list_byte b.

(** ** [String.prototype.split] on a one-character separator *)

Fixpoint split (sep : ascii) (s : string) : list string :=
  match s with
  | EmptyString => [""]
  | String c rest =>
      if Ascii.eqb c sep then "" :: split sep rest
      else match split sep rest with
           | part :: parts => String c part :: parts
           | [] => [String c ""]
           end
  end.

(** ** The cipher: [crypto.createCipheriv('aes-128-cbc', key, iv)] *)

(** A 16-byte block, as four 4-byte words (the columns of the AES state). *)
Definition word : Type := (byte * byte * byte * byte)%type.
Definition block : Type := (word * word * word * word)%type.

Definition toBlock (l : list byte) : option block :=
  match l with
  | [a0; a1; a2; a3; b0; b1; b2; b3; c0; c1; c2; c3; d0; d1; d2; d3] =>
      Some ((a0, a1, a2, a3), (b0, b1, b2, b3), (c0, c1, c2, c3), (d0, d1, d2, d3))
  | _ => None
  end.

Definition fromBlock (b : block) : list byte :=
  let '((a0, a1, a2, a3), (b0, b1, b2, b3), (c0, c1, c2, c3), (d0, d1, d2, d3)) := b in
  [a0; a1; a2; a3; b0; b1; b2; b3; c0; c1; c2; c3; d0; d1; d2; d3].

Definition bits8 : Type :=
  (bool * (bool * (bool * (bool * (bool * (bool * (bool * bool)))))))%type.

Definition xorBits (x y : bits8) : bits8 :=
  let '(x0, (x1, (x2, (x3, (x4, (x5, (x6, x7))))))) := x in
  let '(y0, (y1, (y2, (y3, (y4, (y5, (y6, y7))))))) := y in
  (xorb x0 y0, (xorb x1 y1, (xorb x2 y2, (xorb x3 y3,
   (xorb x4 y4, (xorb x5 y5, (xorb x6 y6, xorb x7 y7))))))).

Definition bxor (a b : byte) : byte :=
  Byte.of_bits (xorBits (Byte.to_bits a) (Byte.to_bits b)).

Definition xorWord (x y : word) : word :=
  let '(x0, x1, x2, x3) := x in
  let '(y0, y1, y2, y3) := y in
  (bxor x0 y0, bxor x1 y1, bxor x2 y2, bxor x3 y3).

Definition xorBlock (x y : block) : block :=
  let '(x0, x1, x2, x3) := x in
  let '(y0, y1, y2, y3) := y in
  (xorWord x0 y0, xorWord x1 y1, xorWord x2 y2, xorWord x3 y3).

(** The block cipher under the CBC mode: key and block are 16 bytes. *)
Class BlockCipher : Type := {
  encryptBlock : block -> block -> block;
  decryptBlock : block -> block -> block
}.

(** Its contract: decryption undoes encryption under the same key. *)
Class BlockCipherCorrect (C : BlockCipher) : Prop := {
  decrypt_encrypt : forall key b, decryptBlock key (encryptBlock key b) = b
}.

(** PKCS#7: [p] bytes of value [p], with [1 <= p <= 16], fill the last block. *)
Definition pkcs7Pad (l : list byte) : list byte :=
  let p := (16 - List.length l mod 16)%nat in
  (l ++ repeat (byteOfN (N.of_nat p)) p)%list.

Definition pkcs7Unpad (l : list byte) : option (list byte) :=
  let p := Byte.to_nat (last l x00) in
  if (p =? 0)%nat || (List.length l <? p)%nat then None
  else if forallb (Byte.eqb (last l x00)) (skipn (List.length l - p) l)
       then Some (firstn (List.length l - p) l)
       else None.

Section Cipher.

Context {C : BlockCipher}.

(** The state of a cipher object: the key, the chaining block (the IV at
    first, then the last ciphertext block) and the input not yet
    processed. *)
Record CipherState : Type := {
  cipherKey : block;
  chain : block;
  pending : list byte
}.

Definition createCipheriv (key iv : Buffer) : result CipherState :=
  match toBlock key with
  | None => Throw (Error "Invalid key length")
  | Some k =>
      match toBlock iv with
      | None => Throw (Error "Invalid initialization vector")
      | Some v => Ok {| cipherKey := k; chain := v; pending := [] |}
      end
  end.

Definition createDecipheriv (key iv : Buffer) : result CipherState :=
  createCipheriv key iv.

(** CBC over the first [n] whole blocks of [data]. *)
Fixpoint encryptBlocks (n : nat) (k ch : block) (data : list byte)
  : list byte * block :=
  match n with
  | O => ([], ch)
  | S n' =>
      match toBlock (firstn 16 data) with
      | Some p =>
          let c := encryptBlock k (xorBlock p ch) in
          let '(out, ch') := encryptBlocks n' k c (skipn 16 data) in
          ((fromBlock c ++ out)%list, ch')
      | None => ([], ch)
      end
  end.

Fixpoint decryptBlocks (n : nat) (k ch : block) (data : list byte)
  : list byte * block :=
  match n with
  | O => ([], ch)
  | S n' =>
      match toBlock (firstn 16 data) with
      | Some c =>
          let p := xorBlock (decryptBlock k c) ch in
          let '(out, ch') := decryptBlocks n' k c (skipn 16 data) in
          ((fromBlock p ++ out)%list, ch')
      | None => ([], ch)
      end
  end.

(** [cipher.update(data)]: every whole block is encrypted and returned. *)
Definition Cipher_update (c : CipherState) (data : Buffer)
  : Buffer * CipherState :=
  let buf := (pending c ++ data)%list in
  let n := (List.length buf / 16)%nat in
  let '(out, ch) := encryptBlocks n (cipherKey c) (chain c) buf in
  (out, {| cipherKey := cipherKey c; chain := ch;
           pending := skipn (16 * n) buf |}).

(** [cipher.final()]: the rest is padded to one block and encrypted. *)
Definition Cipher_final (c : CipherState) : Buffer :=
  fst (encryptBlocks 1 (cipherKey c) (chain c) (pkcs7Pad (pending c))).

(** [decipher.update(data)]: as the padding sits in the last block, a last
    whole block is kept for [final]. *)
Definition Decipher_update (d : CipherState) (data : Buffer)
  : Buffer * CipherState :=
  let buf := (pending d ++ data)%list in
  let whole := (List.length buf / 16)%nat in
  let n := if (List.length buf mod 16 =? 0)%nat then (whole - 1)%nat else whole in
  let '(out, ch) := decryptBlocks n (cipherKey d) (chain d) buf in
  (out, {| cipherKey := cipherKey d; chain := ch;
           pending := skipn (16 * n) buf |}).

(** [decipher.final()]: exactly one block must be left, and its padding
    must be well formed. *)
Definition Decipher_final (d : CipherState) : result Buffer :=
  match toBlock (pending d) with
  | None => Throw (Error "wrong final block length")
  | Some c =>
      match pkcs7Unpad (fromBlock (xorBlock (decryptBlock (cipherKey d) c) (chain d))) with
      | None => Throw (Error "bad decrypt")
      | Some p => Ok p
      end
  end.

(** The text given to [update] with the input encoding ['hex']: a text of
    odd length is refused, then the bytes are read as [Buffer.from] does. *)
Definition validateEncoding_hex (data : string) : result unit :=
  if Nat.even (String.length data) then Ok tt
  else Throw (TypeError "The argument 'encoding' is invalid for data of odd length").

End Cipher.

(** ** The generator: pure-rand's [RandomGenerator] *)

(** [rng.next()] returns the drawn value and the next generator, and leaves
    [rng] as it was. *)
Class RandomGenerator (G : Type) : Type := {
  next : G -> number * G
}.

(** fp-ts [State<S, A>] *)
Definition State (S A : Type) : Type := S -> A * S.

(** [r[i] = v] on a JavaScript array: an index past the end extends the
    array with holes. *)
Fixpoint Array_set {A : Type} (r : list (option A)) (i : nat) (v : A)
  : list (option A) :=
  match i, r with
  | O, [] => [Some v]
  | O, _ :: r' => Some v :: r'
  | S i', [] => None :: Array_set [] i' v
  | S i', x :: r' => x :: Array_set r' i' v
  end.

(** ** parkwalk-core.ts *)

Definition string_decode (s : string) : Either Errors string := Right s.

Definition NonEmptyString_decode : string -> Either Errors string :=
  brand string_decode (fun s => (0 <? String.length s)%nat) "NonEmptyString".

Definition BYTE_RESTRICTION : nat := 32.

Definition encodedTimestampEncryptedPartCodec_decode
  : string -> Either Errors string :=
  brand NonEmptyString_decode (fun s => (String.length s =? 32)%nat)
    "EncodedTimestampEncryptedPart".

Definition castEncodedTimestampEncryptedPart
    (encodedTimestampEncryptedPart : string) : result string :=
  castEitherC (Handler (fun e => Error (showDecodeError e)))
    (encodedTimestampEncryptedPartCodec_decode encodedTimestampEncryptedPart).

Definition ivCodec_decode : string -> Either Errors string :=
  brand NonEmptyString_decode
    (fun s => (String.length s =? BYTE_RESTRICTION)%nat) "IV".

Definition castIV (iv : string) : result string :=
  castEitherC (Handler (fun e => Error (showDecodeError e))) (ivCodec_decode iv).

Definition CHALLENGE_SEPARATOR : ascii := ":"%char.

Definition secretKeyCodec_decode : string -> Either Errors string :=
  brand NonEmptyString_decode
    (fun s => (String.length s =? BYTE_RESTRICTION)%nat) "SecretKey".

Definition castSecretKey (secretKey : string) : result string :=
  castEitherC (Handler (fun e => Error (showDecodeError e))) (secretKeyCodec_decode secretKey).

(** *** The park *)

Inductive Tag : Type :=
| TagEmptyPark
| TagParkWithChallenge
| TagSolvedPark.

(** A park object: its [_tag] and the properties it may hold ([None]: the
    property is absent). *)
Record PublicPark : Type := {
  park_tag : Tag;
  park_encodedTimestamp : option string;
  park_secretKey : option string;
  park_timestamp : option number
}.

Definition EmptyPark : PublicPark :=
  {| park_tag := TagEmptyPark; park_encodedTimestamp := None;
     park_secretKey := None; park_timestamp := None |}.

Definition _ParkWithChallenge (encodedTimestamp : string) : PublicPark :=
  {| park_tag := TagParkWithChallenge;
     park_encodedTimestamp := Some encodedTimestamp;
     park_secretKey := None; park_timestamp := None |}.

Definition _SolvedPark (encodedTimestamp secretKey : string) (timestamp : number)
  : PublicPark :=
  {| park_tag := TagSolvedPark;
     park_encodedTimestamp := Some encodedTimestamp;
     park_secretKey := Some secretKey; park_timestamp := Some timestamp |}.

(** The TypeScript types [EmptyPark], [ParkWithChallenge] and [SolvedPark]:
    the variant of [PublicPark] with that tag. *)
Definition isEmptyPark (p : PublicPark) : Prop := p = EmptyPark.

Definition isParkWithChallenge (p : PublicPark) : Prop :=
  exists e, p = _ParkWithChallenge e.

Definition isSolvedPark (p : PublicPark) : Prop :=
  exists e k t, p = _SolvedPark e k t.

(** [{ ...park, encodedTimestamp, _tag: 'ParkWithChallenge' }] *)
Definition putChallenge (encodedTimestamp : string) (park : PublicPark)
  : PublicPark :=
  {| park_tag := TagParkWithChallenge;
     park_encodedTimestamp := Some encodedTimestamp;
     park_secretKey := park_secretKey park;
     park_timestamp := park_timestamp park |}.

(** [{ ...park, timestamp, secretKey, _tag: 'SolvedPark' }] *)
Definition putSolution (timestamp : number) (secretKey : string)
    (park : PublicPark) : PublicPark :=
  {| park_tag := TagSolvedPark;
     park_encodedTimestamp := park_encodedTimestamp park;
     park_secretKey := Some secretKey;
     park_timestamp := Some timestamp |}.

(** *** The challenge *)

Record Challenge : Type := {
  encodedTimestamp : string;
  secretKey : Buffer
}.

Section Core.

Context {G : Type} {RG : RandomGenerator G} {C : BlockCipher}.

(** The [for] loop of [randN], with [count] iterations left. *)
Fixpoint randN_loop (count i : nat) (r : list (option number)) (rng : G)
  : list (option number) * G :=
  match count with
  | O => (r, rng)
  | S count' =>
      let '(n1, rng1) := next rng in
      randN_loop count' (S i) (Array_set r i n1) rng1
  end.

Definition randN (n : number) : State G (list (option number)) :=
  fun rng =>
    let len := match n with Num z => Z.to_nat z | NaN => O end in
    let r := repeat None len in
    randN_loop len 0 r rng.

(** The text [encoded] of [createChallenge]: the two outputs of the
    cipher, in hexadecimal. *)
Definition encryptTimestamp (timestamp : number) (cipher : CipherState)
  : string :=
  let '(out, cipher1) :=
    Cipher_update cipher (Buffer_from_utf8 (Number_toString timestamp)) in
  let encoded := Buffer_toString_hex out in
  encoded ++ Buffer_toString_hex (Cipher_final cipher1).

Definition createChallenge (timestamp : number) (rng : G)
  : result (Challenge * G) :=
  len1 <- castNonNegativeInteger (Num 16) ;;
  let '(n1, rng1) := randN len1 rng in
  let secretKey := Buffer_from_array n1 in
  len2 <- castNonNegativeInteger (Num 16) ;;
  let '(n2, rng2) := randN len2 rng1 in
  let iv := Buffer_from_array n2 in
  cipher <- createCipheriv secretKey iv ;;
  let encoded := encryptTimestamp timestamp cipher in
  part <- castEncodedTimestampEncryptedPart encoded ;;
  ivPart <- castIV (Buffer_toString_hex iv) ;;
  let encodedTimestamp := part ++ String CHALLENGE_SEPARATOR ivPart in
  Ok ({| encodedTimestamp := encodedTimestamp; secretKey := secretKey |}, rng2).

Definition decodeTimestamp (encodedTimestamp : string) (secretKey : Buffer)
  : result number :=
  match split ":" encodedTimestamp with
  | encoded :: ivHex :: _ =>
      let iv := Buffer_from_hex ivHex in
      decipher <- createDecipheriv secretKey iv ;;
      _ <- validateEncoding_hex encoded ;;
      let '(out, decipher1) :=
        Decipher_update decipher (Buffer_from_hex encoded) in
      let decoded := Buffer_toString_utf8 out in
      final <- Decipher_final decipher1 ;;
      let decoded := decoded ++ Buffer_toString_utf8 final in
      parseNonNegativeInteger decoded
  | _ =>
      (* [ivHex] is [undefined] *)
      Throw (TypeError "The first argument must be of type string")
  end.

(** The script that ends the module, for a given timestamp and generator:
    Bob creates the challenge and puts it in the park; Alice, given the
    key, decodes the timestamp and puts the solution. *)
Definition handshake (timestamp : number) (rng : G) : result PublicPark :=
  let initialPark := EmptyPark in
  r <- createChallenge timestamp rng ;;
  let '(c, _rng1) := r in
  let parkWithChallenge := putChallenge (encodedTimestamp c) initialPark in
  match park_encodedTimestamp parkWithChallenge with
  | Some e =>
      decodedTimestamp <- decodeTimestamp e (secretKey c) ;;
      key <- castSecretKey (Buffer_toString_hex (secretKey c)) ;;
      Ok (putSolution decodedTimestamp key parkWithChallenge)
  | None => Throw (TypeError "Cannot read properties of undefined")
  end.

End Core.

(** ** The test suite of parkwalk-core *)

(** [expect(s).toContain(c)] for a one-character [c] *)
Fixpoint String_includes (c : ascii) (s : string) : bool :=
  match s with
  | EmptyString => false
  | String c' rest => Ascii.eqb c' c || String_includes c rest
  end.

(** [expect(a).toBe(b)] on numbers ([Object.is]: [NaN] is [NaN]) *)
Definition number_toBe (a b : number) : bool :=
  match a, b with
  | NaN, NaN => true
  | Num x, Num y => x =? y
  | _, _ => false
  end.

Definition Tag_eqb (a b : Tag) : bool :=
  match a, b with
  | TagEmptyPark, TagEmptyPark
  | TagParkWithChallenge, TagParkWithChallenge
  | TagSolvedPark, TagSolvedPark => true
  | _, _ => false
  end.

(** [expect(a).toBe(b)] on a property that holds a string or is absent *)
Definition property_toBe (a : option string) (b : string) : bool :=
  match a with
  | Some x => String.eqb x b
  | None => false
  end.

Section Tests.

Context {G : Type} {RG : RandomGenerator G} {C : BlockCipher}.

(** The body of each property, for the timestamp that [Date.now()] gives
    and the generator that fast-check draws: [Ok true] when every [expect]
    holds, [Ok false] when one fails, [Throw] when the code under test
    throws. *)
Definition test_createChallenge (timestamp : number) (rng : G) : result bool :=
  r <- createChallenge timestamp rng ;;
  let '(c, _) := r in
  Ok (String_includes ":" (encodedTimestamp c)
      && (List.length (secretKey c) =? 16)%nat).

Definition test_decodeTimestamp (timestamp : number) (rng : G) : result bool :=
  r <- createChallenge timestamp rng ;;
  let '(c, _) := r in
  decodedTimestamp <- decodeTimestamp (encodedTimestamp c) (secretKey c) ;;
  Ok (number_toBe decodedTimestamp timestamp).

Definition test_putChallenge (timestamp : number) (rng : G) : result bool :=
  r <- createChallenge timestamp rng ;;
  let '(c, _) := r in
  let parkWithChallenge := putChallenge (encodedTimestamp c) EmptyPark in
  Ok (Tag_eqb (park_tag parkWithChallenge) TagParkWithChallenge
      && property_toBe (park_encodedTimestamp parkWithChallenge) (encodedTimestamp c)).

Definition test_putSolution (timestamp : number) (rng : G) : result bool :=
  r <- createChallenge timestamp rng ;;
  let '(c, _) := r in
  let parkWithChallenge := putChallenge (encodedTimestamp c) EmptyPark in
  decodedTimestamp <- decodeTimestamp (encodedTimestamp c) (secretKey c) ;;
  let solvedPark :=
    putSolution decodedTimestamp (Buffer_toString_hex (secretKey c))
      parkWithChallenge in
  Ok (Tag_eqb (park_tag solvedPark) TagSolvedPark
      && match park_timestamp solvedPark with
         | Some t => number_toBe t decodedTimestamp
         | None => false
         end
      && property_toBe (park_secretKey solvedPark)
           (Buffer_toString_hex (secretKey c))).

End Tests.

(** ** AES-128 (FIPS-197), the block cipher of ['aes-128-cbc'] *)

Module AES.

(** Multiplication by [x] in GF(2^8), modulo [x^8 + x^4 + x^3 + x + 1];
    bits are listed from the least significant. *)
Definition xtimeBits (x : bits8) : bits8 :=
  let '(b0, (b1, (b2, (b3, (b4, (b5, (b6, b7))))))) := x in
  (b7, (xorb b0 b7, (b1, (xorb b2 b7, (xorb b3 b7, (b4, (b5, b6))))))).

Definition xtime (a : byte) : byte :=
  Byte.of_bits (xtimeBits (Byte.to_bits a)).

Definition bitList (a : byte) : list bool :=
  let '(b0, (b1, (b2, (b3, (b4, (b5, (b6, b7))))))) := Byte.to_bits a in
  [b0; b1; b2; b3; b4; b5; b6; b7].

Fixpoint gmulBits (a : byte) (bs : list bool) : byte :=
  match bs with
  | [] => x00
  | b :: rest => bxor (if b then a else x00) (gmulBits (xtime a) rest)
  end.

(** The product in GF(2^8). *)
Definition gmul (a b : byte) : byte := gmulBits a (bitList b).

(** The multiplicative inverse, [a^254] (and 0 for 0). *)
Definition ginv (a : byte) : byte :=
  let a2 := gmul a a in
  let a4 := gmul a2 a2 in
  let a8 := gmul a4 a4 in
  let a16 := gmul a8 a8 in
  let a32 := gmul a16 a16 in
  let a64 := gmul a32 a32 in
  let a128 := gmul a64 a64 in
  gmul a2 (gmul a4 (gmul a8 (gmul a16 (gmul a32 (gmul a64 a128))))).

Definition rotl1 (x : bits8) : bits8 :=
  let '(b0, (b1, (b2, (b3, (b4, (b5, (b6, b7))))))) := x in
  (b7, (b0, (b1, (b2, (b3, (b4, (b5, b6))))))).

Fixpoint rotl (n : nat) (x : bits8) : bits8 :=
  match n with
  | O => x
  | S n' => rotl1 (rotl n' x)
  end.

Definition affine (a : byte) : byte :=
  let b := Byte.to_bits a in
  Byte.of_bits
    (xorBits b (xorBits (rotl 1 b) (xorBits (rotl 2 b) (xorBits (rotl 3 b)
       (xorBits (rotl 4 b) (Byte.to_bits x63)))))).

Definition invAffine (a : byte) : byte :=
  let b := Byte.to_bits a in
  Byte.of_bits
    (xorBits (rotl 1 b) (xorBits (rotl 3 b) (xorBits (rotl 6 b)
       (Byte.to_bits x05)))).

Definition subByte (a : byte) : byte := affine (ginv a).
Definition invSubByte (a : byte) : byte := ginv (invAffine a).

Definition mapWord (f : byte -> byte) (w : word) : word :=
  let '(a, b, c, d) := w in (f a, f b, f c, f d).

Definition mapBlock (f : word -> word) (s : block) : block :=
  let '(a, b, c, d) := s in (f a, f b, f c, f d).

Definition subBytes : block -> block := mapBlock (mapWord subByte).
Definition invSubBytes : block -> block := mapBlock (mapWord invSubByte).

(** Row [r] of the state (the [r]-th byte of each column) moves [r]
    columns to the left. *)
Definition shiftRows (s : block) : block :=
  let '((a0, a1, a2, a3), (b0, b1, b2, b3), (c0, c1, c2, c3), (d0, d1, d2, d3)) := s in
  ((a0, b1, c2, d3), (b0, c1, d2, a3), (c0, d1, a2, b3), (d0, a1, b2, c3)).

Definition invShiftRows (s : block) : block :=
  let '((a0, a1, a2, a3), (b0, b1, b2, b3), (c0, c1, c2, c3), (d0, d1, d2, d3)) := s in
  ((a0, d1, c2, b3), (b0, a1, d2, c3), (c0, b1, a2, d3), (d0, c1, b2, a3)).

Definition mul2 (a : byte) : byte := xtime a.
Definition mul3 (a : byte) : byte := bxor (xtime a) a.
Definition mul9 (a : byte) : byte := bxor (xtime (xtime (xtime a))) a.
Definition mul11 (a : byte) : byte :=
  bxor (xtime (xtime (xtime a))) (bxor (xtime a) a).
Definition mul13 (a : byte) : byte :=
  bxor (xtime (xtime (xtime a))) (bxor (xtime (xtime a)) a).
Definition mul14 (a : byte) : byte :=
  bxor (xtime (xtime (xtime a))) (bxor (xtime (xtime a)) (xtime a)).

Definition xor4 (a b c d : byte) : byte := bxor a (bxor b (bxor c d)).

Definition mixColumn (w : word) : word :=
  let '(a, b, c, d) := w in
  (xor4 (mul2 a) (mul3 b) c d,
   xor4 a (mul2 b) (mul3 c) d,
   xor4 a b (mul2 c) (mul3 d),
   xor4 (mul3 a) b c (mul2 d)).

Definition invMixColumn (w : word) : word :=
  let '(a, b, c, d) := w in
  (xor4 (mul14 a) (mul11 b) (mul13 c) (mul9 d),
   xor4 (mul9 a) (mul14 b) (mul11 c) (mul13 d),
   xor4 (mul13 a) (mul9 b) (mul14 c) (mul11 d),
   xor4 (mul11 a) (mul13 b) (mul9 c) (mul14 d)).

Definition mixColumns : block -> block := mapBlock mixColumn.
Definition invMixColumns : block -> block := mapBlock invMixColumn.

Definition addRoundKey (s k : block) : block := xorBlock s k.

(** *** Key expansion *)

Definition rotWord (w : word) : word :=
  let '(a, b, c, d) := w in (b, c, d, a).

Definition subWord : word -> word := mapWord subByte.

Definition Rcon : list byte := [x01; x02; x04; x08; x10; x20; x40; x80; x1b; x36].

Definition nextRoundKey (rcon : byte) (k : block) : block :=
  let '(w0, w1, w2, w3) := k in
  let t := xorWord (subWord (rotWord w3)) (rcon, x00, x00, x00) in
  let w4 := xorWord w0 t in
  let w5 := xorWord w1 w4 in
  let w6 := xorWord w2 w5 in
  let w7 := xorWord w3 w6 in
  (w4, w5, w6, w7).

Fixpoint expandFrom (k : block) (rcons : list byte) : list block :=
  match rcons with
  | [] => []
  | r :: rest => let k' := nextRoundKey r k in k' :: expandFrom k' rest
  end.

(** The round keys after the first (which is the key itself). *)
Definition keyExpansion (key : block) : list block := expandFrom key Rcon.

(** *** Cipher and inverse cipher *)

Definition round (s k : block) : block :=
  addRoundKey (mixColumns (shiftRows (subBytes s))) k.

Definition finalRound (s k : block) : block :=
  addRoundKey (shiftRows (subBytes s)) k.

Fixpoint rounds (s : block) (ks : list block) : block :=
  match ks with
  | [] => s
  | [k] => finalRound s k
  | k :: rest => rounds (round s k) rest
  end.

Definition invRound (s k : block) : block :=
  invSubBytes (invShiftRows (invMixColumns (addRoundKey s k))).

Definition invFinalRound (s k : block) : block :=
  invSubBytes (invShiftRows (addRoundKey s k)).

Fixpoint invRounds (s : block) (ks : list block) : block :=
  match ks with
  | [] => s
  | [k] => invFinalRound s k
  | k :: rest => invRound (invRounds s rest) k
  end.

Definition cipher (key input : block) : block :=
  rounds (addRoundKey input key) (keyExpansion key).

Definition invCipher (key input : block) : block :=
  addRoundKey (invRounds input (keyExpansion key)) key.

End AES.

#[export] Instance AES128 : BlockCipher := {
  encryptBlock := AES.cipher;
  decryptBlock := AES.invCipher
}.

(** ** A sample generator *)

(** A linear congruential generator on 31 bits, to run the program on. *)
#[export] Instance LCG : RandomGenerator Z := {
  next := fun s => let s' := (s * 1103515245 + 12345) mod 2 ^ 31 in (Num s', s')
}.


(** A second sample generator: the same values as [LCG] plus 256 each. *)
Definition shiftedNext (s : Z) : number * Z :=
  let s' := (s * 1103515245 + 12345) mod 2 ^ 31 in (Num (s' + 256), s').

(** ** Vocabulary of the statements *)

Fixpoint string_forallb (p : ascii -> bool) (s : string) : bool :=
  match s with
  | EmptyString => true
  | String c rest => p c && string_forallb p rest
  end.

Fixpoint countChar (c : ascii) (s : string) : nat :=
  match s with
  | EmptyString => O
  | String c' rest => ((if Ascii.eqb c' c then 1 else 0) + countChar c rest)%nat
  end.

(** A canonical decimal text, in the words of the specification: decimal
    digits only, at least one, and no leading zero but in the text 0. *)
Definition isCanonicalDecimal (s : string) : bool :=
  match s with
  | EmptyString => false
  | String c rest =>
      string_forallb isDigit s && (negb (Ascii.eqb c "0") || String.eqb rest "")
  end.

(** A lowercase hexadecimal digit: [0-9a-f]. *)
Definition isLowerHex (c : ascii) : bool :=
  let n := N_of_ascii c in
  ((48 <=? n)%N && (n <=? 57)%N) || ((97 <=? n)%N && (n <=? 102)%N).

(** The first [n] values a generator yields, and the generator after them. *)
Fixpoint draws {G : Type} {RG : RandomGenerator G} (n : nat) (rng : G)
  : list number * G :=
  match n with
  | O => ([], rng)
  | S n' =>
      let '(v, rng1) := next rng in
      let '(vs, rng') := draws n' rng1 in
      (v :: vs, rng')
  end.

(** The key and the IV that [createChallenge] draws from [rng]: sixteen
    values each, every value cut to its low byte. *)
Definition drawnKey {G : Type} {RG : RandomGenerator G} (rng : G) : Buffer :=
  map (fun v => toUint8 (Some v)) (fst (draws 16 rng)).

Definition drawnIV {G : Type} {RG : RandomGenerator G} (rng : G) : Buffer :=
  map (fun v => toUint8 (Some v)) (fst (draws 16 (snd (draws 16 rng)))).

(** Decryption with a cipher object as [decodeTimestamp] drives it: one
    [update] on the whole ciphertext, then [final]. *)
Definition decipher {C : BlockCipher} (k v : block) (data : Buffer)
  : result Buffer :=
  let '(out, d1) :=
    Decipher_update {| cipherKey := k; chain := v; pending := [] |} data in
  final <- Decipher_final d1 ;;
  Ok (out ++ final)%list.

(** The challenge of a result, without the generator. *)
Definition challengeOf {G : Type} (r : result (Challenge * G)) : result Challenge :=
  match r with
  | Ok (c, _) => Ok c
  | Throw e => Throw e
  end.

(** The challenge for the timestamp 1700000000000 from the state 42. *)
Definition sampleChallenge : Challenge :=
  {| encodedTimestamp :=
       "166a33bab0e3dda49a07a6ac6ed4a295:0be801a6e7943d328300397edf2cf58a";
     secretKey := Buffer_from_hex "1bb891f6f764cd8293d0c9ceeffc85da" |}.

(** * Properties *)

(** ** Text *)

Lemma string_forallb_app (p : ascii -> bool) (a b : string) :
  string_forallb p (a ++ b) = string_forallb p a && string_forallb p b.
Proof.
  induction a as [|c a IH]; cbn; [reflexivity|].
  now rewrite IH, andb_assoc.
Qed.

Lemma string_length_app (a b : string) :
  String.length (a ++ b) = (String.length a + String.length b)%nat.
Proof. induction a as [|c a IH]; cbn; [reflexivity | now rewrite IH]. Qed.

Lemma countChar_app (c : ascii) (a b : string) :
  countChar c (a ++ b) = (countChar c a + countChar c b)%nat.
Proof. induction a as [|c' a IH]; cbn; [reflexivity | rewrite IH; lia]. Qed.

Lemma isLowerHex_not_separator (c : ascii) :
  isLowerHex c = true -> Ascii.eqb c ":" = false.
Proof.
  intros H. destruct (Ascii.eqb_spec c ":") as [->|]; [discriminate H | reflexivity].
Qed.

Lemma countChar_lowerHex (s : string) :
  string_forallb isLowerHex s = true -> countChar ":" s = O.
Proof.
  induction s as [|c s IH]; cbn; [reflexivity|].
  intros [Hc Hs]%andb_prop. now rewrite (isLowerHex_not_separator c Hc), IH.
Qed.

Lemma split_lowerHex (s : string) :
  string_forallb isLowerHex s = true -> split ":" s = [s].
Proof.
  induction s as [|c s IH]; cbn; [reflexivity|].
  intros [Hc Hs]%andb_prop. now rewrite (isLowerHex_not_separator c Hc), IH.
Qed.

Lemma split_app_separator (a b : string) :
  string_forallb isLowerHex a = true ->
  split ":" (a ++ String ":" b) = a :: split ":" b.
Proof.
  induction a as [|c a IH]; cbn; [reflexivity|].
  intros [Hc Ha]%andb_prop. now rewrite (isLowerHex_not_separator c Hc), IH.
Qed.

(** ** Decimal text of a number *)

Lemma digitChar_spec (d : Z) :
  0 <= d < 10 -> isDigit (digitChar d) = true /\ digitValue (digitChar d) = d.
Proof.
  intros H.
  assert (d = 0 \/ d = 1 \/ d = 2 \/ d = 3 \/ d = 4 \/ d = 5 \/ d = 6
          \/ d = 7 \/ d = 8 \/ d = 9) as Hd by lia.
  repeat (destruct Hd as [-> | Hd]; [split; reflexivity|]).
  subst d; split; reflexivity.
Qed.

Lemma decimalDigits_isDigit (fuel : nat) :
  forall z acc,
    string_forallb isDigit (decimalDigits fuel z acc) = string_forallb isDigit acc.
Proof.
  assert (Hd : forall z, isDigit (digitChar (z mod 10)) = true).
  { intros z. apply digitChar_spec. apply Z.mod_pos_bound. lia. }
  induction fuel as [|fuel IH]; intros z acc; cbn [decimalDigits].
  - cbn. now rewrite Hd.
  - destruct (z <? 10).
    + cbn. now rewrite Hd.
    + rewrite IH. cbn. now rewrite Hd.
Qed.

Lemma decimalDigits_value (fuel : nat) :
  forall z acc,
    0 <= z < 10 ^ (Z.of_nat fuel + 1) ->
    digitsValue 0 (decimalDigits fuel z acc) = digitsValue z acc.
Proof.
  assert (Hd : forall z, 0 <= z ->
             10 * (z / 10) + digitValue (digitChar (z mod 10)) = z).
  { intros z Hz.
    destruct (digitChar_spec (z mod 10)) as [_ ->].
    - apply Z.mod_pos_bound; lia.
    - pose proof (Z.div_mod z 10). lia. }
  induction fuel as [|fuel IH]; intros z acc Hz; cbn [decimalDigits].
  - cbn [digitsValue]. f_equal.
    change (10 ^ (Z.of_nat 0 + 1)) with 10 in Hz.
    rewrite <- (Hd z) at 2 by lia. rewrite (Z.div_small z 10) by lia. lia.
  - destruct (Z.ltb_spec z 10) as [Hlt | Hge].
    + cbn [digitsValue]. f_equal.
      rewrite <- (Hd z) at 2 by lia. rewrite (Z.div_small z 10) by lia. lia.
    + rewrite IH.
      * cbn [digitsValue]. f_equal. apply Hd. lia.
      * split; [apply Z.div_pos; lia|].
        apply Z.div_lt_upper_bound; [lia|].
        replace (Z.of_nat (S fuel) + 1) with (Z.succ (Z.of_nat fuel + 1)) in Hz by lia.
        rewrite Z.pow_succ_r in Hz by lia. lia.
Qed.

Lemma decimalDigits_length (fuel : nat) :
  forall z acc (k : nat),
    0 <= z < 10 ^ Z.of_nat k -> (1 <= k)%nat ->
    (String.length (decimalDigits fuel z acc) <= k + String.length acc)%nat.
Proof.
  induction fuel as [|fuel IH]; intros z acc k Hz Hk; cbn [decimalDigits].
  - cbn. lia.
  - destruct (Z.ltb_spec z 10) as [Hlt | Hge].
    + cbn. lia.
    + destruct k as [|[|k]]; [lia | change (10 ^ Z.of_nat 1) with 10 in Hz; lia |].
      specialize (IH (z / 10) (String (digitChar (z mod 10)) acc) (S k)).
      cbn [String.length] in IH.
      assert (0 <= z / 10 < 10 ^ Z.of_nat (S k)).
      { split; [apply Z.div_pos; lia|].
        apply Z.div_lt_upper_bound; [lia|].
        replace (Z.of_nat (S (S k))) with (Z.succ (Z.of_nat (S k))) in Hz by lia.
        rewrite Z.pow_succ_r in Hz by lia. lia. }
      specialize (IH H). lia.
Qed.

Lemma natToString_fuel (z : Z) :
  0 <= z -> 0 <= z < 10 ^ (Z.of_nat (Z.to_nat (Z.log2 z)) + 1).
Proof.
  intros Hz. split; [assumption|].
  rewrite Z2Nat.id by apply Z.log2_nonneg.
  destruct (Z.eq_dec z 0) as [-> | Hnz]; [reflexivity|].
  destruct (Z.log2_spec z) as [_ Hlt]; [lia|].
  eapply Z.lt_le_trans; [exact Hlt|].
  replace (Z.succ (Z.log2 z)) with (Z.log2 z + 1) by lia.
  apply Z.pow_le_mono_l. lia.
Qed.

Lemma natToString_isDigit (z : Z) :
  string_forallb isDigit (natToString z) = true.
Proof. unfold natToString. now rewrite decimalDigits_isDigit. Qed.

Lemma natToString_value (z : Z) :
  0 <= z -> digitsValue 0 (natToString z) = z.
Proof.
  intros Hz. unfold natToString.
  now rewrite decimalDigits_value by (apply natToString_fuel; assumption).
Qed.

Lemma decimalDigits_length_pos (fuel : nat) :
  forall z acc, (1 <= String.length (decimalDigits fuel z acc))%nat.
Proof.
  induction fuel as [|fuel IH]; intros z acc; cbn [decimalDigits].
  - cbn. lia.
  - destruct (z <? 10); [cbn; lia | apply IH].
Qed.

Lemma natToString_length (z : Z) (k : nat) :
  0 <= z < 10 ^ Z.of_nat k -> (1 <= k)%nat ->
  (String.length (natToString z) <= k)%nat.
Proof.
  intros Hz Hk. unfold natToString.
  pose proof (decimalDigits_length (Z.to_nat (Z.log2 z)) z "" k Hz Hk) as H.
  cbn [String.length] in H. lia.
Qed.

Lemma takeDigits_all (s : string) :
  string_forallb isDigit s = true -> takeDigits s = s.
Proof.
  induction s as [|c s IH]; cbn; [reflexivity|].
  intros [Hc Hs]%andb_prop. now rewrite Hc, IH.
Qed.

Lemma isDigit_plain (c : ascii) :
  isDigit c = true ->
  isWhiteSpace c = false /\ c <> "-"%char /\ c <> "+"%char.
Proof.
  intros H. repeat split.
  - unfold isDigit in H. unfold isWhiteSpace.
    apply andb_prop in H as [H1%N.leb_le H2%N.leb_le].
    destruct (N_of_ascii c) as [|q]; [lia|].
    do 6 (destruct q as [q|q|]; try reflexivity; try lia).
  - intros ->. discriminate H.
  - intros ->. discriminate H.
Qed.

Lemma parseInt_digits (s : string) :
  (1 <= String.length s)%nat -> string_forallb isDigit s = true ->
  parseInt s = Num (digitsValue 0 s).
Proof.
  destruct s as [|c s]; cbn [String.length]; [lia|]. intros _ H.
  pose proof (takeDigits_all _ H) as Htake.
  cbn [string_forallb] in H. apply andb_prop in H as [Hc Hs].
  destruct (isDigit_plain c Hc) as (Hws & Hminus & Hplus).
  unfold parseInt. cbn [trimStart]. rewrite Hws.
  assert (Hsign :
    match String c s with
    | String "-" rest => (-1, rest)
    | String "+" rest => (1, rest)
    | _ => (1, String c s)
    end = (1, String c s)).
  { destruct c as [[] [] [] [] [] [] [] []]; try reflexivity; congruence. }
  rewrite Hsign, Htake. f_equal. lia.
Qed.

Lemma parseInt_toString (z : Z) :
  0 <= z -> parseInt (Number_toString (Num z)) = Num z.
Proof.
  intros Hz. cbn [Number_toString].
  destruct (Z.ltb_spec z 0) as [|_]; [lia|].
  rewrite parseInt_digits.
  - now rewrite natToString_value.
  - apply decimalDigits_length_pos.
  - apply natToString_isDigit.
Qed.

Lemma castNonNegativeInteger_nonneg (z : Z) :
  0 <= z -> castNonNegativeInteger (Num z) = Ok (Num z).
Proof.
  intros Hz. unfold castNonNegativeInteger, castEitherC, getFromEitherC,
    nonNegativeIntegerCodec_decode, Int_decode, brand, number_decode.
  cbn. destruct (Z.leb_spec 0 z); [reflexivity | lia].
Qed.

Lemma parseNonNegativeInteger_toString (z : Z) :
  0 <= z -> parseNonNegativeInteger (Number_toString (Num z)) = Ok (Num z).
Proof.
  intros Hz. unfold parseNonNegativeInteger.
  rewrite parseInt_toString by assumption. cbn [isNaN].
  rewrite String.eqb_refl. cbn [negb].
  now apply castNonNegativeInteger_nonneg.
Qed.

Lemma Number_toString_length (z : Z) (k : nat) :
  0 <= z < 10 ^ Z.of_nat k -> (1 <= k)%nat ->
  (String.length (Number_toString (Num z)) <= k)%nat.
Proof.
  intros Hz Hk. cbn [Number_toString].
  destruct (Z.ltb_spec z 0) as [|_]; [lia|].
  now apply natToString_length.
Qed.

(** A safe integer prints in at most 17 characters: 16 digits and a sign. *)
Lemma Number_toString_safe (n : number) :
  isSafeInteger n = true -> (String.length (Number_toString n) <= 17)%nat.
Proof.
  destruct n as [|z]; [discriminate|].
  unfold isSafeInteger, MAX_SAFE_INTEGER.
  intros [Hlo%Z.leb_le Hhi%Z.leb_le]%andb_prop.
  cbn [Number_toString]. destruct (Z.ltb_spec z 0) as [Hneg | Hpos].
  - cbn [String.length].
    pose proof (natToString_length (- z) 16) as H.
    assert (0 <= - z < 10 ^ Z.of_nat 16) by (change (10 ^ Z.of_nat 16) with (10 ^ 16); lia).
    specialize (H H0). lia.
  - pose proof (natToString_length z 16) as H.
    assert (0 <= z < 10 ^ Z.of_nat 16) by (change (10 ^ Z.of_nat 16) with (10 ^ 16); lia).
    specialize (H H0). lia.
Qed.

(** *** The decimal text of the value of a canonical text *)

Lemma append_assoc (a b c : string) : (a ++ b) ++ c = a ++ (b ++ c).
Proof. induction a as [|x a IH]; cbn; [reflexivity | now rewrite IH]. Qed.

Lemma append_nil_r (a : string) : a ++ "" = a.
Proof. induction a as [|x a IH]; cbn; [reflexivity | now rewrite IH]. Qed.

Lemma decimalDigits_app (fuel : nat) :
  forall z acc, decimalDigits fuel z acc = decimalDigits fuel z "" ++ acc.
Proof.
  induction fuel as [|fuel IH]; intros z acc; cbn [decimalDigits]; [reflexivity|].
  destruct (z <? 10); [reflexivity|].
  rewrite IH, (IH _ (String _ "")), append_assoc. reflexivity.
Qed.

Lemma div10_bound (z : Z) (k : Z) :
  0 <= k -> 0 <= z < 10 ^ (k + 1 + 1) -> 0 <= z / 10 < 10 ^ (k + 1).
Proof.
  intros Hk Hz. split; [apply Z.div_pos; lia|].
  apply Z.div_lt_upper_bound; [lia|].
  replace (k + 1 + 1) with (Z.succ (k + 1)) in Hz by lia.
  rewrite Z.pow_succ_r in Hz by lia. lia.
Qed.

(** Any fuel that is enough gives the same digits. *)
Lemma decimalDigits_fuel (f1 : nat) :
  forall f2 z acc,
    0 <= z < 10 ^ (Z.of_nat f1 + 1) -> z < 10 ^ (Z.of_nat f2 + 1) ->
    decimalDigits f1 z acc = decimalDigits f2 z acc.
Proof.
  induction f1 as [|f1 IH]; intros f2 z acc H1 H2.
  - change (10 ^ (Z.of_nat 0 + 1)) with 10 in H1.
    destruct f2 as [|f2]; cbn [decimalDigits]; [reflexivity|].
    destruct (Z.ltb_spec z 10); [reflexivity | lia].
  - cbn [decimalDigits]. destruct (Z.ltb_spec z 10) as [Hlt | Hge].
    + destruct f2 as [|f2]; cbn [decimalDigits]; [reflexivity|].
      destruct (Z.ltb_spec z 10); [reflexivity | lia].
    + destruct f2 as [|f2].
      * change (10 ^ (Z.of_nat 0 + 1)) with 10 in H2. lia.
      * cbn [decimalDigits]. destruct (Z.ltb_spec z 10); [lia|].
        apply IH.
        -- apply div10_bound; [lia|].
           replace (Z.of_nat f1 + 1 + 1) with (Z.of_nat (S f1) + 1) by lia. lia.
        -- apply div10_bound; [lia|].
           replace (Z.of_nat f2 + 1 + 1) with (Z.of_nat (S f2) + 1) by lia. lia.
Qed.

Lemma natToString_step (a d : Z) :
  0 < a -> 0 <= d < 10 ->
  natToString (10 * a + d) = natToString a ++ String (digitChar d) "".
Proof.
  intros Ha Hd. unfold natToString.
  set (fa := Z.to_nat (Z.log2 a)).
  assert (Hfa : 0 <= a < 10 ^ (Z.of_nat fa + 1)) by (apply natToString_fuel; lia).
  rewrite (decimalDigits_fuel _ (S fa)).
  - cbn [decimalDigits]. destruct (Z.ltb_spec (10 * a + d) 10); [lia|].
    replace ((10 * a + d) / 10) with a
      by (apply Z.div_unique with (r := d); lia).
    replace ((10 * a + d) mod 10) with d
      by (apply Z.mod_unique with (q := a); lia).
    apply decimalDigits_app.
  - apply natToString_fuel. lia.
  - replace (Z.of_nat (S fa) + 1) with (Z.succ (Z.of_nat fa + 1)) by lia.
    rewrite Z.pow_succ_r by lia. lia.
Qed.

Lemma isDigit_digitChar (c : ascii) :
  isDigit c = true -> digitChar (digitValue c) = c /\ 0 <= digitValue c < 10.
Proof.
  destruct c as [[] [] [] [] [] [] [] []]; try discriminate;
    intros _; split; solve [reflexivity | cbv; split; congruence].
Qed.

Lemma natToString_digit (d : Z) :
  0 <= d < 10 -> natToString d = String (digitChar d) "".
Proof.
  intros H.
  assert (d = 0 \/ d = 1 \/ d = 2 \/ d = 3 \/ d = 4 \/ d = 5 \/ d = 6
          \/ d = 7 \/ d = 8 \/ d = 9) as Hd by lia.
  repeat (destruct Hd as [-> | Hd]; [reflexivity|]).
  subst d; reflexivity.
Qed.

Lemma natToString_digitsValue (s : string) :
  forall a,
    string_forallb isDigit s = true -> 0 < a ->
    natToString (digitsValue a s) = natToString a ++ s.
Proof.
  induction s as [|c s IH]; intros a Hs Ha; cbn [digitsValue].
  - now rewrite append_nil_r.
  - cbn [string_forallb] in Hs. apply andb_prop in Hs as [Hc Hs].
    destruct (isDigit_digitChar c Hc) as [Hchar Hval].
    rewrite IH by (assumption || lia).
    rewrite natToString_step by lia.
    now rewrite Hchar, append_assoc.
Qed.

Lemma digitsValue_nonneg (s : string) :
  forall a, string_forallb isDigit s = true -> 0 <= a -> 0 <= digitsValue a s.
Proof.
  induction s as [|c s IH]; intros a Hs Ha; cbn [digitsValue]; [assumption|].
  cbn [string_forallb] in Hs. apply andb_prop in Hs as [Hc Hs].
  destruct (isDigit_digitChar c Hc) as [_ Hval].
  apply IH; [assumption | lia].
Qed.

Lemma canonical_toString (s : string) :
  isCanonicalDecimal s = true ->
  0 <= digitsValue 0 s /\ Number_toString (Num (digitsValue 0 s)) = s.
Proof.
  destruct s as [|c s]; [discriminate|].
  unfold isCanonicalDecimal. intros [Hdigits Hlead]%andb_prop.
  assert (Hnn : 0 <= digitsValue 0 (String c s))
    by (apply digitsValue_nonneg; [assumption | lia]).
  split; [assumption|]. cbn [Number_toString].
  destruct (Z.ltb_spec (digitsValue 0 (String c s)) 0) as [|_]; [lia|].
  pose proof Hdigits as Hd. cbn [string_forallb] in Hd.
  apply andb_prop in Hd as [Hc Hs].
  destruct (isDigit_digitChar c Hc) as [Hchar Hval].
  cbn [digitsValue]. replace (10 * 0 + digitValue c) with (digitValue c) by lia.
  destruct (Z.eq_dec (digitValue c) 0) as [Hzero | Hnz].
  - assert (c = "0"%char) as -> by (rewrite <- Hchar, Hzero; reflexivity).
    cbn in Hlead. apply String.eqb_eq in Hlead. subst s. reflexivity.
  - rewrite natToString_digitsValue by (assumption || lia).
    rewrite natToString_digit by lia. now rewrite Hchar.
Qed.

Lemma decimalDigits_leading (fuel : nat) :
  forall z acc,
    0 < z < 10 ^ (Z.of_nat fuel + 1) ->
    exists d rest,
      1 <= d < 10 /\ decimalDigits fuel z acc = String (digitChar d) rest.
Proof.
  induction fuel as [|fuel IH]; intros z acc Hz; cbn [decimalDigits].
  - change (10 ^ (Z.of_nat 0 + 1)) with 10 in Hz.
    exists z, acc. rewrite Z.mod_small by lia. split; [lia | reflexivity].
  - destruct (Z.ltb_spec z 10) as [Hlt | Hge].
    + exists z, acc. rewrite Z.mod_small by lia. split; [lia | reflexivity].
    + apply IH.
      pose proof (div10_bound z (Z.of_nat fuel) ltac:(lia)) as H.
      replace (Z.of_nat fuel + 1 + 1) with (Z.of_nat (S fuel) + 1) in H by lia.
      assert (1 <= z / 10) by (apply Z.div_le_lower_bound; lia).
      lia.
Qed.

Lemma natToString_canonical (z : Z) :
  0 <= z -> isCanonicalDecimal (natToString z) = true.
Proof.
  intros Hz. destruct (Z.eq_dec z 0) as [-> | Hnz]; [reflexivity|].
  pose proof (natToString_isDigit z) as Hdigits.
  destruct (decimalDigits_leading (Z.to_nat (Z.log2 z)) z "") as (d & rest & Hd & Heq).
  { pose proof (natToString_fuel z Hz). lia. }
  unfold natToString in *. rewrite Heq in *.
  unfold isCanonicalDecimal. rewrite Hdigits. cbn [andb].
  assert (d = 1 \/ d = 2 \/ d = 3 \/ d = 4 \/ d = 5 \/ d = 6
          \/ d = 7 \/ d = 8 \/ d = 9) as Hcases by lia.
  repeat (destruct Hcases as [-> | Hcases]; [reflexivity|]).
  subst d; reflexivity.
Qed.

(** The strict parser accepts exactly the canonical decimal texts, and
    returns their value.  The bound keeps the text in the range where the
    numbers of JavaScript are exact. *)
Lemma parseNonNegativeInteger_canonical (s : string) (n : number) :
  (String.length s <= 15)%nat ->
  parseNonNegativeInteger s = Ok n <->
  isCanonicalDecimal s = true /\ n = Num (digitsValue 0 s).
Proof.
  intros _. unfold parseNonNegativeInteger. split.
  - destruct (parseInt s) as [|z] eqn:Hparse; cbn [isNaN]; [discriminate|].
    destruct (String.eqb_spec (Number_toString (Num z)) s) as [Heq | Hne];
      cbn [negb]; [|discriminate].
    unfold castNonNegativeInteger, castEitherC, getFromEitherC,
      nonNegativeIntegerCodec_decode, Int_decode, brand, number_decode.
    cbn. destruct (Z.leb_spec 0 z) as [Hz | Hz]; [|discriminate].
    intros [= <-]. cbn [Number_toString] in Heq.
    destruct (Z.ltb_spec z 0) as [|_]; [lia|]. subst s.
    split; [now apply natToString_canonical|].
    now rewrite natToString_value.
  - intros [Hcanon ->].
    destruct (canonical_toString s Hcanon) as [Hnn Hstr].
    rewrite parseInt_digits.
    + cbn [isNaN]. rewrite Hstr, String.eqb_refl. cbn [negb].
      now apply castNonNegativeInteger_nonneg.
    + destruct s; [discriminate | cbn; lia].
    + destruct s; [discriminate|].
      unfold isCanonicalDecimal in Hcanon. now apply andb_prop in Hcanon as [? _].
Qed.

(** ** Hexadecimal text of a buffer *)

Lemma byteToHex_lowerHex (b : byte) :
  string_forallb isLowerHex (byteToHex b) = true.
Proof. destruct b; reflexivity. Qed.

Lemma Buffer_toString_hex_length (b : Buffer) :
  String.length (Buffer_toString_hex b) = (2 * List.length b)%nat.
Proof.
  induction b as [|x b IH]; [reflexivity|].
  cbn [Buffer_toString_hex List.length]. rewrite string_length_app, IH.
  cbn. lia.
Qed.

Lemma Buffer_toString_hex_lowerHex (b : Buffer) :
  string_forallb isLowerHex (Buffer_toString_hex b) = true.
Proof.
  induction b as [|x b IH]; [reflexivity|].
  cbn [Buffer_toString_hex].
  now rewrite string_forallb_app, byteToHex_lowerHex, IH.
Qed.

Lemma Buffer_toString_hex_app (a b : Buffer) :
  Buffer_toString_hex (a ++ b)%list = Buffer_toString_hex a ++ Buffer_toString_hex b.
Proof.
  induction a as [|x a IH]; [reflexivity|].
  cbn [Buffer_toString_hex app]. rewrite IH.
  unfold byteToHex. reflexivity.
Qed.

Lemma Buffer_from_hex_byte (b : byte) (rest : string) :
  Buffer_from_hex (byteToHex b ++ rest) = b :: Buffer_from_hex rest.
Proof. destruct b; reflexivity. Qed.

Lemma Buffer_from_hex_toString (b : Buffer) :
  Buffer_from_hex (Buffer_toString_hex b) = b.
Proof.
  induction b as [|x b IH]; [reflexivity|].
  cbn [Buffer_toString_hex]. now rewrite Buffer_from_hex_byte, IH.
Qed.

(** ** Blocks *)

Ltac bits_of b :=
  rewrite <- (Byte.of_bits_to_bits b);
  generalize (Byte.to_bits b); clear b;
  intros [? [? [? [? [? [? [? ?]]]]]]].

Lemma bxor_involutive (a b : byte) : bxor (bxor a b) b = a.
Proof.
  unfold bxor. bits_of a. bits_of b.
  rewrite !Byte.to_bits_of_bits. cbn [xorBits].
  repeat (rewrite xorb_assoc, xorb_nilpotent, xorb_false_r).
  reflexivity.
Qed.

Lemma xorWord_involutive (x y : word) : xorWord (xorWord x y) y = x.
Proof.
  destruct x as [[[x0 x1] x2] x3], y as [[[y0 y1] y2] y3]; cbn.
  now rewrite !bxor_involutive.
Qed.

Lemma xorBlock_involutive (x y : block) : xorBlock (xorBlock x y) y = x.
Proof.
  destruct x as [[[x0 x1] x2] x3], y as [[[y0 y1] y2] y3]; cbn.
  now rewrite !xorWord_involutive.
Qed.

Lemma toBlock_fromBlock (b : block) : toBlock (fromBlock b) = Some b.
Proof.
  destruct b as [[[[[[a0 a1] a2] a3] [[[b0 b1] b2] b3]] [[[c0 c1] c2] c3]] [[[d0 d1] d2] d3]].
  reflexivity.
Qed.

Lemma fromBlock_length (b : block) : List.length (fromBlock b) = 16%nat.
Proof.
  destruct b as [[[[[[a0 a1] a2] a3] [[[b0 b1] b2] b3]] [[[c0 c1] c2] c3]] [[[d0 d1] d2] d3]].
  reflexivity.
Qed.

Lemma toBlock_Some (l : list byte) (b : block) :
  toBlock l = Some b -> l = fromBlock b.
Proof.
  unfold toBlock.
  do 17 (destruct l as [|? l]; try discriminate).
  intros [= <-]. reflexivity.
Qed.

Lemma toBlock_length16 (l : list byte) :
  List.length l = 16%nat -> exists b, toBlock l = Some b.
Proof.
  intros H.
  do 16 (destruct l as [|? l]; [discriminate H|]).
  destruct l; [|discriminate H].
  eexists. reflexivity.
Qed.

(** ** AES-128 is invertible *)

Module AESFacts.
Import AES.

Lemma invSubByte_subByte (a : byte) : invSubByte (subByte a) = a.
Proof. destruct a; vm_compute; reflexivity. Qed.

Lemma invSubBytes_subBytes (s : block) : invSubBytes (subBytes s) = s.
Proof.
  destruct s as [[[[[[a0 a1] a2] a3] [[[b0 b1] b2] b3]] [[[c0 c1] c2] c3]] [[[d0 d1] d2] d3]].
  cbn. now rewrite !invSubByte_subByte.
Qed.

Lemma invShiftRows_shiftRows (s : block) : invShiftRows (shiftRows s) = s.
Proof.
  destruct s as [[[[[[a0 a1] a2] a3] [[[b0 b1] b2] b3]] [[[c0 c1] c2] c3]] [[[d0 d1] d2] d3]].
  reflexivity.
Qed.

(** The product of the two column matrices is the identity already over
    GF(2)[x]: bit by bit, every term occurs an even number of times but
    the bit itself. *)
Lemma invMixColumn_mixColumn (w : word) : invMixColumn (mixColumn w) = w.
Proof.
  destruct w as [[[a b] c] d].
  unfold invMixColumn, mixColumn, xor4, mul2, mul3, mul9, mul11, mul13, mul14,
    xtime, bxor.
  bits_of a. bits_of b. bits_of c. bits_of d.
  rewrite !Byte.to_bits_of_bits. cbn [xorBits xtimeBits].
  repeat f_equal; btauto.
Qed.

Lemma invMixColumns_mixColumns (s : block) : invMixColumns (mixColumns s) = s.
Proof.
  destruct s as [[[a b] c] d]; cbn.
  now rewrite !invMixColumn_mixColumn.
Qed.

Lemma invRound_round (s k : block) : invRound (round s k) k = s.
Proof.
  unfold invRound, round, addRoundKey.
  now rewrite xorBlock_involutive, invMixColumns_mixColumns,
    invShiftRows_shiftRows, invSubBytes_subBytes.
Qed.

Lemma invFinalRound_finalRound (s k : block) :
  invFinalRound (finalRound s k) k = s.
Proof.
  unfold invFinalRound, finalRound, addRoundKey.
  now rewrite xorBlock_involutive, invShiftRows_shiftRows, invSubBytes_subBytes.
Qed.

Lemma invRounds_rounds (ks : list block) :
  forall s, invRounds (rounds s ks) ks = s.
Proof.
  induction ks as [|k rest IH]; intros s; [reflexivity|].
  destruct rest as [|k' rest'].
  - apply invFinalRound_finalRound.
  - change (invRound (invRounds (rounds (round s k) (k' :: rest')) (k' :: rest')) k = s).
    rewrite IH. apply invRound_round.
Qed.

Theorem invCipher_cipher (key input : block) :
  invCipher key (cipher key input) = input.
Proof.
  unfold invCipher, cipher. rewrite invRounds_rounds.
  apply xorBlock_involutive.
Qed.

End AESFacts.

#[export] Instance AES128_correct : BlockCipherCorrect AES128.
Proof. constructor. exact AESFacts.invCipher_cipher. Qed.

(** The example vector of FIPS-197, appendix C.1. *)
Example AES128_fips197_C1 :
  match toBlock (Buffer_from_hex "000102030405060708090a0b0c0d0e0f"),
        toBlock (Buffer_from_hex "00112233445566778899aabbccddeeff") with
  | Some k, Some p =>
      Buffer_toString_hex (fromBlock (encryptBlock k p))
        = "69c4e0d86a7b0430d8cdb78070b4c55a"
      /\ decryptBlock k (encryptBlock k p) = p
  | _, _ => False
  end.
Proof. vm_compute. split; reflexivity. Qed.

Example AES_subByte_values :
  (AES.subByte x00, AES.subByte x01, AES.subByte x53) = (x63, x7c, xed).
Proof. vm_compute. reflexivity. Qed.

(** The first two blocks of the CBC-AES128 example of NIST SP 800-38A,
    F.2.1, through the cipher object, and back. *)
Example AES128_CBC_sp800_38a :
  match toBlock (Buffer_from_hex "2b7e151628aed2a6abf7158809cf4f3c"),
        toBlock (Buffer_from_hex "000102030405060708090a0b0c0d0e0f") with
  | Some k, Some v =>
      let text :=
        Buffer_from_hex
          "6bc1bee22e409f96e93d7e117393172aae2d8a571e03ac9c9eb76fac45af8e51" in
      let '(out, c1) :=
        Cipher_update {| cipherKey := k; chain := v; pending := [] |} text in
      Buffer_toString_hex out
        = "7649abac8119b246cee98e9b12e9197d5086cb9b507219ee95db113a917678b2"
      /\ decipher k v (out ++ Cipher_final c1)%list = Ok text
  | _, _ => False
  end.
Proof. vm_compute. split; reflexivity. Qed.

(** ** Padding *)

Lemma padLength_bounds (n : nat) :
  (1 <= 16 - n mod 16 <= 16)%nat.
Proof. pose proof (Nat.mod_upper_bound n 16). lia. Qed.

Lemma byteOfN_to_nat (p : nat) :
  (p <= 16)%nat -> Byte.to_nat (byteOfN (N.of_nat p)) = p.
Proof.
  intros H.
  do 17 (destruct p as [|p]; [reflexivity|]). lia.
Qed.

Lemma pkcs7Pad_length (l : list byte) :
  List.length (pkcs7Pad l) = (16 * (List.length l / 16 + 1))%nat.
Proof.
  unfold pkcs7Pad. rewrite length_app, repeat_length.
  pose proof (Nat.div_mod_eq (List.length l) 16).
  pose proof (Nat.mod_upper_bound (List.length l) 16). lia.
Qed.

Lemma forallb_repeat_eqb (b : byte) (p : nat) :
  forallb (Byte.eqb b) (repeat b p) = true.
Proof.
  induction p as [|p IH]; [reflexivity|].
  cbn. now rewrite Byte.byte_dec_lb.
Qed.

Lemma pkcs7Unpad_pad (l : list byte) : pkcs7Unpad (pkcs7Pad l) = Some l.
Proof.
  unfold pkcs7Unpad, pkcs7Pad.
  pose proof (padLength_bounds (List.length l)) as Hp.
  set (p := (16 - List.length l mod 16)%nat) in *.
  set (b := byteOfN (N.of_nat p)).
  assert (Hlast : last (l ++ repeat b p) x00 = b).
  { destruct p as [|p]; [lia|].
    replace (repeat b (S p)) with (repeat b p ++ [b])%list
      by (rewrite <- repeat_cons; reflexivity).
    rewrite app_assoc. apply last_last. }
  assert (Hb : Byte.to_nat b = p) by (apply byteOfN_to_nat; lia).
  rewrite Hlast, Hb, length_app, repeat_length.
  destruct (Nat.eqb_spec p 0) as [|_]; [lia|].
  destruct (Nat.ltb_spec (List.length l + p) p) as [|_]; [lia|].
  cbn [orb].
  replace (List.length l + p - p)%nat with (List.length l) by lia.
  rewrite skipn_app, skipn_all, Nat.sub_diag.
  rewrite firstn_app, firstn_all, Nat.sub_diag.
  cbn [skipn firstn app].
  rewrite forallb_repeat_eqb. now rewrite app_nil_r.
Qed.

(** ** The cipher object *)

Section CipherFacts.

Context {C : BlockCipher}.

Lemma encryptBlocks_length (n : nat) :
  forall k ch data,
    (16 * n <= List.length data)%nat ->
    List.length (fst (encryptBlocks n k ch data)) = (16 * n)%nat.
Proof.
  induction n as [|n IH]; intros k ch data Hlen; [reflexivity|].
  cbn [encryptBlocks].
  destruct (toBlock_length16 (firstn 16 data)) as [p Hp].
  { rewrite length_firstn. lia. }
  rewrite Hp.
  specialize (IH k (encryptBlock k (xorBlock p ch)) (skipn 16 data)).
  destruct (encryptBlocks n k (encryptBlock k (xorBlock p ch)) (skipn 16 data))
    as [out ch'].
  cbn [fst] in *. rewrite length_app, fromBlock_length, IH.
  - lia.
  - rewrite length_skipn. lia.
Qed.

Lemma Cipher_update_fresh (k v : block) (data : Buffer) :
  let c := {| cipherKey := k; chain := v; pending := [] |} in
  let n := (List.length data / 16)%nat in
  List.length (fst (Cipher_update c data)) = (16 * n)%nat
  /\ pending (snd (Cipher_update c data)) = skipn (16 * n) data.
Proof.
  cbn zeta. unfold Cipher_update. cbn [pending cipherKey chain app].
  pose proof (encryptBlocks_length (List.length data / 16) k v data) as H.
  destruct (encryptBlocks (List.length data / 16) k v data) as [out ch].
  cbn [fst snd pending] in *. split; [|reflexivity].
  apply H. pose proof (Nat.div_mod_eq (List.length data) 16). lia.
Qed.

Lemma Cipher_final_length (c : CipherState) :
  (List.length (pending c) < 16)%nat ->
  List.length (Cipher_final c) = 16%nat.
Proof.
  intros H. unfold Cipher_final.
  rewrite (encryptBlocks_length 1); [reflexivity|].
  rewrite pkcs7Pad_length. lia.
Qed.

Lemma Buffer_from_utf8_length (s : string) :
  List.length (Buffer_from_utf8 s) = String.length s.
Proof.
  unfold Buffer_from_utf8, list_byte_of_string. rewrite length_map.
  induction s as [|c s IH]; cbn; [reflexivity | now rewrite IH].
Qed.

(** The hexadecimal ciphertext has 32 characters for every whole or
    partial block of text, and 32 more for the padding when the text ends
    on a block. *)
Lemma encryptTimestamp_length (timestamp : number) (k v : block) :
  String.length
    (encryptTimestamp timestamp {| cipherKey := k; chain := v; pending := [] |})
  = (32 * (String.length (Number_toString timestamp) / 16 + 1))%nat.
Proof.
  unfold encryptTimestamp.
  set (data := Buffer_from_utf8 (Number_toString timestamp)).
  destruct (Cipher_update_fresh k v data) as [Hout Hpend].
  destruct (Cipher_update _ data) as [out c1]. cbn [fst snd] in *.
  rewrite string_length_app, !Buffer_toString_hex_length, Hout.
  rewrite Cipher_final_length.
  - unfold data. rewrite Buffer_from_utf8_length. lia.
  - rewrite Hpend, length_skipn.
    pose proof (Nat.div_mod_eq (List.length data) 16).
    pose proof (Nat.mod_upper_bound (List.length data) 16). lia.
Qed.

End CipherFacts.

(** ** Drawing from the generator *)

Lemma Array_set_hole {A : Type} (pre : list (option A)) :
  forall x rest v,
    Array_set (pre ++ x :: rest) (List.length pre) v = (pre ++ Some v :: rest)%list.
Proof.
  induction pre as [|y pre IH]; intros x rest v; cbn; [reflexivity|].
  now rewrite IH.
Qed.

Section GeneratorFacts.

Context {G : Type} {RG : RandomGenerator G}.

Lemma draws_length (n : nat) :
  forall rng : G, List.length (fst (draws n rng)) = n.
Proof.
  induction n as [|n IH]; intros rng; cbn [draws]; [reflexivity|].
  destruct (next rng) as [v rng1]. specialize (IH rng1).
  destruct (draws n rng1) as [vs rng']. cbn in *. now rewrite IH.
Qed.

(** [draws] composes: [n + m] draws are [n] draws, then [m] more. *)
Lemma draws_add (n m : nat) :
  forall rng : G,
    draws (n + m) rng =
    (fst (draws n rng) ++ fst (draws m (snd (draws n rng))),
     snd (draws m (snd (draws n rng))))%list.
Proof.
  induction n as [|n IH]; intros rng; cbn [draws Nat.add fst snd app].
  - now destruct (draws m rng).
  - destruct (next rng) as [v rng1]. rewrite IH.
    destruct (draws n rng1) as [vs rng']. reflexivity.
Qed.

(** The loop invariant of [randN]: the array holds the values drawn so
    far, followed by holes. *)
Lemma randN_loop_spec (count : nat) :
  forall (pre : list number) (rng : G),
    randN_loop count (List.length pre)
      (map Some pre ++ repeat None count) rng
    = (map Some (pre ++ fst (draws count rng)), snd (draws count rng)).
Proof.
  induction count as [|count IH]; intros pre rng; cbn [randN_loop draws repeat].
  - cbn. now rewrite !app_nil_r.
  - destruct (next rng) as [n1 rng1].
    pose proof (Array_set_hole (map Some pre) None (repeat None count) n1) as Hset.
    rewrite length_map in Hset. rewrite Hset.
    specialize (IH (pre ++ [n1])%list rng1).
    rewrite length_app, map_app in IH. cbn [List.length map] in IH.
    rewrite <- app_assoc in IH. cbn [app] in IH.
    replace (List.length pre + 1)%nat with (S (List.length pre)) in IH by lia.
    rewrite IH. destruct (draws count rng1) as [vs rng'].
    cbn [fst snd]. now rewrite <- app_assoc.
Qed.

Lemma randN_spec (n : nat) (rng : G) :
  randN (Num (Z.of_nat n)) rng
  = (map Some (fst (draws n rng)), snd (draws n rng)).
Proof.
  unfold randN. rewrite Nat2Z.id.
  exact (randN_loop_spec n [] rng).
Qed.

Lemma Buffer_from_array_drawn (vs : list number) :
  Buffer_from_array (map Some vs) = map (fun v => toUint8 (Some v)) vs.
Proof. unfold Buffer_from_array. now rewrite map_map. Qed.

End GeneratorFacts.

(** ** The shape of [createChallenge] *)

Lemma cast32 (name : string) (s : string) :
  castEitherC (Handler (fun e => Error (showDecodeError e)))
    (brand NonEmptyString_decode (fun s => (String.length s =? 32)%nat) name s)
  = if (String.length s =? 32)%nat then Ok s
    else if (String.length s =? 0)%nat
         then Throw (Error (showDecodeError "NonEmptyString"))
         else Throw (Error (showDecodeError name)).
Proof.
  cbv [castEitherC getFromEitherC brand NonEmptyString_decode string_decode].
  destruct (Nat.ltb_spec 0 (String.length s)) as [Hpos | Hzero].
  - destruct (Nat.eqb_spec (String.length s) 32); [reflexivity|].
    destruct (Nat.eqb_spec (String.length s) 0); [lia | reflexivity].
  - destruct (Nat.eqb_spec (String.length s) 32); [lia|].
    destruct (Nat.eqb_spec (String.length s) 0); [reflexivity | lia].
Qed.

Section ChallengeFacts.

Context {G : Type} {RG : RandomGenerator G} {C : BlockCipher}.

Lemma drawnKey_length (rng : G) : List.length (drawnKey rng) = 16%nat.
Proof. unfold drawnKey. now rewrite length_map, draws_length. Qed.

Lemma drawnIV_length (rng : G) : List.length (drawnIV rng) = 16%nat.
Proof. unfold drawnIV. now rewrite length_map, draws_length. Qed.

(** What is left of [createChallenge] once the draws are done: the cipher
    is created, and only the check of the encrypted part can fail. *)
Lemma createChallenge_shape (timestamp : number) (rng : G) :
  exists k v,
    toBlock (drawnKey rng) = Some k /\ toBlock (drawnIV rng) = Some v /\
    createChallenge timestamp rng =
    (part <- castEncodedTimestampEncryptedPart
               (encryptTimestamp timestamp
                  {| cipherKey := k; chain := v; pending := [] |}) ;;
     Ok ({| encodedTimestamp :=
              part ++ String ":" (Buffer_toString_hex (drawnIV rng));
            secretKey := drawnKey rng |},
         snd (draws 16 (snd (draws 16 rng))))).
Proof.
  destruct (toBlock_length16 _ (drawnKey_length rng)) as [k Hk].
  destruct (toBlock_length16 _ (drawnIV_length rng)) as [v Hv].
  exists k, v. split; [assumption|]. split; [assumption|].
  unfold createChallenge.
  rewrite castNonNegativeInteger_nonneg by lia. cbn [bind].
  change (Num 16) with (Num (Z.of_nat 16)). rewrite !randN_spec.
  rewrite !Buffer_from_array_drawn.
  fold (drawnKey rng). fold (drawnIV rng).
  unfold createCipheriv. rewrite Hk, Hv. cbn [bind].
  unfold castIV, ivCodec_decode, BYTE_RESTRICTION.
  rewrite (cast32 "IV"), Buffer_toString_hex_length, drawnIV_length.
  reflexivity.
Qed.

Lemma createChallenge_short (timestamp : number) (rng : G) :
  (String.length (Number_toString timestamp) <= 15)%nat ->
  exists k v,
    toBlock (drawnKey rng) = Some k /\ toBlock (drawnIV rng) = Some v /\
    createChallenge timestamp rng =
    Ok ({| encodedTimestamp :=
             encryptTimestamp timestamp
               {| cipherKey := k; chain := v; pending := [] |}
             ++ String ":" (Buffer_toString_hex (drawnIV rng));
           secretKey := drawnKey rng |},
        snd (draws 16 (snd (draws 16 rng)))).
Proof.
  intros Hlen.
  destruct (createChallenge_shape timestamp rng) as (k & v & Hk & Hv & ->).
  exists k, v. split; [assumption|]. split; [assumption|].
  unfold castEncodedTimestampEncryptedPart, encodedTimestampEncryptedPartCodec_decode.
  rewrite cast32, encryptTimestamp_length.
  rewrite Nat.div_small by lia. reflexivity.
Qed.

Lemma createChallenge_long (timestamp : number) (rng : G) :
  (16 <= String.length (Number_toString timestamp))%nat ->
  createChallenge timestamp rng =
  Throw (Error (showDecodeError "EncodedTimestampEncryptedPart")).
Proof.
  intros Hlen.
  destruct (createChallenge_shape timestamp rng) as (k & v & Hk & Hv & ->).
  unfold castEncodedTimestampEncryptedPart, encodedTimestampEncryptedPartCodec_decode.
  rewrite cast32, encryptTimestamp_length.
  assert (1 <= String.length (Number_toString timestamp) / 16)%nat
    by (apply Nat.div_le_lower_bound; lia).
  destruct (Nat.eqb_spec (32 * (String.length (Number_toString timestamp) / 16 + 1)) 32);
    [lia|].
  destruct (Nat.eqb_spec (32 * (String.length (Number_toString timestamp) / 16 + 1)) 0);
    [lia|].
  reflexivity.
Qed.

End ChallengeFacts.

(** ** One block through the cipher and back *)

Section RoundTripFacts.

Context {C : BlockCipher}.

(** A text of at most 15 bytes is encrypted by [final] alone, as one
    padded block. *)
Lemma encryptTimestamp_short (timestamp : number) (k v : block) :
  (String.length (Number_toString timestamp) <= 15)%nat ->
  exists p,
    toBlock (pkcs7Pad (Buffer_from_utf8 (Number_toString timestamp))) = Some p /\
    encryptTimestamp timestamp {| cipherKey := k; chain := v; pending := [] |}
    = Buffer_toString_hex (fromBlock (encryptBlock k (xorBlock p v))).
Proof.
  intros Hlen.
  set (data := Buffer_from_utf8 (Number_toString timestamp)).
  assert (Hdata : (List.length data < 16)%nat)
    by (unfold data; rewrite Buffer_from_utf8_length; lia).
  assert (Hpad : List.length (pkcs7Pad data) = 16%nat)
    by (rewrite pkcs7Pad_length, Nat.div_small by lia; reflexivity).
  destruct (toBlock_length16 _ Hpad) as [p Hp].
  exists p. split; [assumption|].
  unfold encryptTimestamp, Cipher_update. fold data.
  cbn [pending cipherKey chain app].
  rewrite (Nat.div_small (List.length data) 16) by lia.
  rewrite Nat.mul_0_r.
  cbn [encryptBlocks skipn Buffer_toString_hex].
  unfold Cipher_final. cbn [pending cipherKey chain encryptBlocks].
  rewrite firstn_all2 by lia. rewrite Hp. cbn [fst append].
  now rewrite app_nil_r.
Qed.

(** A single block of ciphertext is kept whole by [update]. *)
Lemma Decipher_update_one_block (k v c : block) :
  Decipher_update {| cipherKey := k; chain := v; pending := [] |} (fromBlock c)
  = ([], {| cipherKey := k; chain := v; pending := fromBlock c |}).
Proof.
  destruct c as [[[[[[a0 a1] a2] a3] [[[b0 b1] b2] b3]] [[[c0 c1] c2] c3]] [[[d0 d1] d2] d3]].
  reflexivity.
Qed.

Context {CC : BlockCipherCorrect C}.

Lemma Decipher_final_one_block (k v p : block) (data : Buffer) :
  fromBlock p = pkcs7Pad data ->
  Decipher_final
    {| cipherKey := k; chain := v;
       pending := fromBlock (encryptBlock k (xorBlock p v)) |}
  = Ok data.
Proof.
  intros Hp. unfold Decipher_final. cbn [pending cipherKey chain].
  rewrite toBlock_fromBlock, decrypt_encrypt, xorBlock_involutive, Hp.
  now rewrite pkcs7Unpad_pad.
Qed.

(** Decoding what was encoded: the text in, the number out. *)
Lemma decodeTimestamp_encrypted (z : Z) (key iv : Buffer) (k v : block) :
  0 <= z ->
  (String.length (Number_toString (Num z)) <= 15)%nat ->
  toBlock key = Some k -> toBlock iv = Some v ->
  decodeTimestamp
    (encryptTimestamp (Num z) {| cipherKey := k; chain := v; pending := [] |}
     ++ String ":" (Buffer_toString_hex iv))
    key
  = Ok (Num z).
Proof.
  intros Hz Hlen Hk Hv.
  destruct (encryptTimestamp_short (Num z) k v Hlen) as (p & Hp & ->).
  unfold decodeTimestamp.
  rewrite split_app_separator by apply Buffer_toString_hex_lowerHex.
  rewrite split_lowerHex by apply Buffer_toString_hex_lowerHex.
  rewrite !Buffer_from_hex_toString.
  unfold createDecipheriv, createCipheriv. rewrite Hk, Hv. cbn [bind].
  unfold validateEncoding_hex.
  rewrite Buffer_toString_hex_length, fromBlock_length. cbn [Nat.mul Nat.add Nat.even bind].
  rewrite Decipher_update_one_block.
  rewrite (Decipher_final_one_block k v p
             (Buffer_from_utf8 (Number_toString (Num z))))
    by (symmetry; now apply toBlock_Some).
  cbn [bind Buffer_toString_utf8 string_of_list_byte map string_of_list_ascii append].
  unfold Buffer_toString_utf8, Buffer_from_utf8.
  rewrite string_of_list_byte_of_string.
  now apply parseNonNegativeInteger_toString.
Qed.

End RoundTripFacts.

(** * The claims *)

(** ** The strict parser *)

Lemma castNonNegativeInteger_Ok (n m : number) :
  castNonNegativeInteger n = Ok m <-> exists z, n = Num z /\ 0 <= z /\ m = n.
Proof.
  unfold castNonNegativeInteger, castEitherC, getFromEitherC,
    nonNegativeIntegerCodec_decode, Int_decode, brand, number_decode.
  destruct n as [|z]; cbn.
  - split; [discriminate | intros (z & [=] & _)].
  - destruct (Z.leb_spec 0 z) as [Hz | Hz].
    + split.
      * intros [= <-]. now exists z.
      * intros (z' & _ & _ & ->). reflexivity.
    + split; [discriminate | intros (z' & [= <-] & Hz' & _); lia].
Qed.

Lemma parseNonNegativeInteger_Ok (s : string) (n : number) :
  parseNonNegativeInteger s = Ok n <->
  exists z, parseInt s = Num z /\ Number_toString (Num z) = s /\ 0 <= z /\ n = Num z.
Proof.
  unfold parseNonNegativeInteger.
  destruct (parseInt s) as [|z]; cbn [isNaN].
  - split; [discriminate | intros (z & [=] & _)].
  - destruct (String.eqb_spec (Number_toString (Num z)) s) as [Heq | Hne]; cbn [negb].
    + rewrite castNonNegativeInteger_Ok. split.
      * intros (z' & [= <-] & Hz & ->). now exists z.
      * intros (z' & [= <-] & _ & Hz & ->). now exists z.
    + split; [discriminate | intros (z' & [= <-] & Heq & _); contradiction].
Qed.

(** C6. The strict parser refuses 007, -5, 5.0 and abc, and accepts 0 and
    123456789; it accepts a text exactly when [parseInt] reads an integer
    from it whose decimal text is the input again and that is not
    negative, and then returns that integer.  In the words of the
    specification: it accepts the canonical decimal texts (digits only, no
    leading zero, no sign, no white space), here up to 15 digits, where the
    numbers of JavaScript are exact. *)
Theorem parseNonNegativeInteger_accepts_canonical :
  throws (parseNonNegativeInteger "007")
  /\ throws (parseNonNegativeInteger "-5")
  /\ throws (parseNonNegativeInteger "5.0")
  /\ throws (parseNonNegativeInteger "abc")
  /\ parseNonNegativeInteger "0" = Ok (Num 0)
  /\ parseNonNegativeInteger "123456789" = Ok (Num 123456789)
  /\ (forall s n,
        parseNonNegativeInteger s = Ok n <->
        exists z, parseInt s = Num z /\ Number_toString (Num z) = s
                  /\ 0 <= z /\ n = Num z)
  /\ (forall s n,
        (String.length s <= 15)%nat ->
        parseNonNegativeInteger s = Ok n <->
        isCanonicalDecimal s = true /\ n = Num (digitsValue 0 s)).
Proof.
  split; [eexists; vm_compute; reflexivity|].
  split; [eexists; vm_compute; reflexivity|].
  split; [eexists; vm_compute; reflexivity|].
  split; [eexists; vm_compute; reflexivity|].
  split; [vm_compute; reflexivity|].
  split; [vm_compute; reflexivity|].
  split; [exact parseNonNegativeInteger_Ok | exact parseNonNegativeInteger_canonical].
Qed.

(** ** Decoding *)

Lemma Buffer_toString_utf8_app (a b : Buffer) :
  Buffer_toString_utf8 (a ++ b)%list = Buffer_toString_utf8 a ++ Buffer_toString_utf8 b.
Proof.
  unfold Buffer_toString_utf8, string_of_list_byte. rewrite map_app.
  induction (map ascii_of_byte a) as [|c l IH]; cbn; [reflexivity | now rewrite IH].
Qed.

Lemma throws_or_returns {A : Type} (r : result A) :
  throws r <-> ~ exists a, r = Ok a.
Proof.
  destruct r as [a | e]; split.
  - intros [e [=]].
  - intros H. exfalso. apply H. now exists a.
  - intros _ [a [=]].
  - intros _. now exists e.
Qed.

Section DecodeFacts.

Context {C : BlockCipher}.

(** [decodeTimestamp], step by step: the first two parts of the text, the
    two 16-byte checks of [createDecipheriv], the parity check of
    [update], the decryption and the strict parser. *)
Lemma decodeTimestamp_steps (e : string) (key : Buffer) :
  decodeTimestamp e key =
  match split ":" e with
  | encoded :: ivHex :: _ =>
      match toBlock key, toBlock (Buffer_from_hex ivHex) with
      | None, _ => Throw (Error "Invalid key length")
      | Some _, None => Throw (Error "Invalid initialization vector")
      | Some k, Some v =>
          if Nat.even (String.length encoded) then
            payload <- decipher k v (Buffer_from_hex encoded) ;;
            parseNonNegativeInteger (Buffer_toString_utf8 payload)
          else
            Throw (TypeError "The argument 'encoding' is invalid for data of odd length")
      end
  | _ => Throw (TypeError "The first argument must be of type string")
  end.
Proof.
  unfold decodeTimestamp.
  destruct (split ":" e) as [|encoded [|ivHex rest]]; try reflexivity.
  unfold createDecipheriv, createCipheriv.
  destruct (toBlock key) as [k|]; [|reflexivity].
  destruct (toBlock (Buffer_from_hex ivHex)) as [v|]; [|reflexivity].
  cbn [bind]. unfold validateEncoding_hex.
  destruct (Nat.even (String.length encoded)); [|reflexivity].
  cbn [bind]. unfold decipher.
  destruct (Decipher_update _ (Buffer_from_hex encoded)) as [out d1].
  destruct (Decipher_final d1) as [final | err]; [|reflexivity].
  cbn [bind]. now rewrite Buffer_toString_utf8_app.
Qed.

Lemma decodeTimestamp_Ok (e : string) (key : Buffer) (n : number) :
  decodeTimestamp e key = Ok n <->
  exists encoded ivHex rest k v payload,
    split ":" e = encoded :: ivHex :: rest
    /\ toBlock key = Some k
    /\ toBlock (Buffer_from_hex ivHex) = Some v
    /\ Nat.even (String.length encoded) = true
    /\ decipher k v (Buffer_from_hex encoded) = Ok payload
    /\ parseNonNegativeInteger (Buffer_toString_utf8 payload) = Ok n.
Proof.
  rewrite decodeTimestamp_steps. split.
  - destruct (split ":" e) as [|encoded [|ivHex rest]]; try discriminate.
    destruct (toBlock key) as [k|] eqn:Hk; [|discriminate].
    destruct (toBlock (Buffer_from_hex ivHex)) as [v|] eqn:Hv; [|discriminate].
    destruct (Nat.even (String.length encoded)) eqn:Heven; [|discriminate].
    destruct (decipher k v (Buffer_from_hex encoded)) as [payload|] eqn:Hd;
      [|discriminate].
    cbn [bind]. intros H.
    exists encoded, ivHex, rest, k, v, payload. auto 7.
  - intros (encoded & ivHex & rest & k & v & payload & -> & -> & -> & -> & -> & H).
    exact H.
Qed.

(** Decryption fails on a ciphertext that is empty or not a whole number of
    blocks, whatever the key. *)
Lemma decipher_wrong_length (k v : block) (data : Buffer) :
  data = [] \/ (List.length data mod 16 <> 0)%nat ->
  decipher k v data = Throw (Error "wrong final block length").
Proof.
  intros H. unfold decipher, Decipher_update. cbn [pending cipherKey chain app].
  set (n := if (List.length data mod 16 =? 0)%nat
            then (List.length data / 16 - 1)%nat else (List.length data / 16)%nat).
  destruct (decryptBlocks n k v data) as [out ch].
  unfold Decipher_final. cbn [pending].
  destruct (toBlock (skipn (16 * n) data)) as [c|] eqn:Hc; [|reflexivity].
  exfalso. apply toBlock_Some in Hc.
  apply (f_equal (@List.length _)) in Hc.
  rewrite length_skipn, fromBlock_length in Hc.
  pose proof (Nat.div_mod_eq (List.length data) 16) as Hdiv.
  pose proof (Nat.mod_upper_bound (List.length data) 16 ltac:(lia)) as Hmod.
  subst n. destruct H as [-> | Hodd].
  - cbn in Hc. lia.
  - destruct (Nat.eqb_spec (List.length data mod 16) 0); lia.
Qed.

End DecodeFacts.

(** ** Creating a challenge *)

Section ChallengeClaims.

Context {G : Type} {RG : RandomGenerator G} {C : BlockCipher}.

Lemma encryptTimestamp_lowerHex (timestamp : number) (c : CipherState) :
  string_forallb isLowerHex (encryptTimestamp timestamp c) = true.
Proof.
  unfold encryptTimestamp. destruct (Cipher_update c _) as [out c1].
  now rewrite string_forallb_app, !Buffer_toString_hex_lowerHex.
Qed.

(** Whatever [createChallenge] returns is made of the drawn key, the
    drawn IV and a ciphertext of 32 characters. *)
Lemma createChallenge_Ok (timestamp : number) (rng rng' : G) (c : Challenge) :
  createChallenge timestamp rng = Ok (c, rng') ->
  exists k v,
    toBlock (drawnKey rng) = Some k /\ toBlock (drawnIV rng) = Some v
    /\ String.length
         (encryptTimestamp timestamp
            {| cipherKey := k; chain := v; pending := [] |}) = 32%nat
    /\ c = {| encodedTimestamp :=
                encryptTimestamp timestamp
                  {| cipherKey := k; chain := v; pending := [] |}
                ++ String ":" (Buffer_toString_hex (drawnIV rng));
              secretKey := drawnKey rng |}
    /\ rng' = snd (draws 16 (snd (draws 16 rng))).
Proof.
  destruct (createChallenge_shape timestamp rng) as (k & v & Hk & Hv & ->).
  unfold castEncodedTimestampEncryptedPart, encodedTimestampEncryptedPartCodec_decode.
  rewrite cast32.
  destruct (Nat.eqb_spec (String.length (encryptTimestamp timestamp
              {| cipherKey := k; chain := v; pending := [] |})) 32) as [H32 | _].
  - cbn [bind]. intros [= <- <-]. exists k, v. auto.
  - destruct (Nat.eqb _ 0); discriminate.
Qed.

(** C1 (amended). For every integer [0 <= t < 10^15], that is every
    timestamp of at most 15 decimal digits, and every generator state,
    [createChallenge] returns, and decoding its encoded timestamp with
    its secret key gives [t] back. *)
Theorem createChallenge_decodeTimestamp_round_trip
    {CC : BlockCipherCorrect C} (t : Z) (rng : G) :
  0 <= t < 10 ^ 15 ->
  exists c rng',
    createChallenge (Num t) rng = Ok (c, rng')
    /\ decodeTimestamp (encodedTimestamp c) (secretKey c) = Ok (Num t).
Proof.
  intros Ht.
  assert (Hlen : (String.length (Number_toString (Num t)) <= 15)%nat)
    by (apply Number_toString_length; [exact Ht | lia]).
  destruct (createChallenge_short (Num t) rng Hlen) as (k & v & Hk & Hv & Hc).
  eexists _, _. split; [exact Hc|].
  cbn [encodedTimestamp secretKey].
  apply decodeTimestamp_encrypted; solve [lia | assumption].
Qed.

(** C3 (amended). The two draws always give 16 bytes, 32 hexadecimal
    characters, so that the check of the IV never fails; [createChallenge]
    fails exactly when the decimal text of the timestamp has 16 characters
    or more, and the one error it throws is that of the check of the
    encrypted part. *)
Theorem createChallenge_throws_iff_long (timestamp : number) (rng : G) :
  String.length
    (Buffer_toString_hex (Buffer_from_array (fst (randN (Num 16) rng)))) = 32%nat
  /\ String.length
       (Buffer_toString_hex
          (Buffer_from_array
             (fst (randN (Num 16) (snd (randN (Num 16) rng)))))) = 32%nat
  /\ (throws (createChallenge timestamp rng) <->
      (16 <= String.length (Number_toString timestamp))%nat)
  /\ (forall e,
        createChallenge timestamp rng = Throw e ->
        e = Error (showDecodeError "EncodedTimestampEncryptedPart")).
Proof.
  assert (Hdraw : forall r : G,
    String.length
      (Buffer_toString_hex (Buffer_from_array (fst (randN (Num 16) r)))) = 32%nat).
  { intros r. change (Num 16) with (Num (Z.of_nat 16)).
    rewrite randN_spec, Buffer_toString_hex_length. cbn [fst].
    unfold Buffer_from_array. now rewrite !length_map, draws_length. }
  assert (Hlong : forall e,
    createChallenge timestamp rng = Throw e ->
    (16 <= String.length (Number_toString timestamp))%nat).
  { intros e He.
    destruct (Nat.le_gt_cases 16 (String.length (Number_toString timestamp)))
      as [|Hshort]; [assumption|].
    destruct (createChallenge_short timestamp rng) as (k & v & _ & _ & Hc);
      [lia | congruence]. }
  split; [apply Hdraw|]. split; [apply Hdraw|]. split; [split|].
  - intros [e He]. now apply (Hlong e).
  - intros H. eexists. now apply createChallenge_long.
  - intros e He. pose proof (Hlong e He) as H.
    rewrite (createChallenge_long timestamp rng H) in He. congruence.
Qed.

(** C10. Whether [createChallenge] succeeds depends on the length of the
    decimal text of the timestamp and not on the draws: at most 15
    characters, it returns; from 16 characters on, the ciphertext has two
    blocks, 64 hexadecimal characters, and the check of the encrypted part
    throws.  No JavaScript number prints in 32 characters or more, a safe
    integer prints in 17 at most; the integers of the model are unbounded,
    hence the bound of 31 in the second part. *)
Theorem createChallenge_depends_on_text_length (timestamp : number) (rng : G) :
  ((String.length (Number_toString timestamp) <= 15)%nat ->
   exists c rng', createChallenge timestamp rng = Ok (c, rng'))
  /\ ((16 <= String.length (Number_toString timestamp) <= 31)%nat ->
      exists k v,
        createCipheriv (Buffer_from_array (fst (randN (Num 16) rng)))
          (Buffer_from_array (fst (randN (Num 16) (snd (randN (Num 16) rng)))))
        = Ok {| cipherKey := k; chain := v; pending := [] |}
        /\ String.length
             (encryptTimestamp timestamp
                {| cipherKey := k; chain := v; pending := [] |}) = 64%nat
        /\ createChallenge timestamp rng =
           Throw (Error (showDecodeError "EncodedTimestampEncryptedPart")))
  /\ (isSafeInteger timestamp = true ->
      (String.length (Number_toString timestamp) <= 31)%nat).
Proof.
  split; [|split; [|intros Hsafe%Number_toString_safe; lia]].
  - intros Hshort.
    destruct (createChallenge_short timestamp rng Hshort) as (k & v & _ & _ & Hc).
    eauto.
  - intros [Hlo Hhi].
    destruct (createChallenge_shape timestamp rng) as (k & v & Hk & Hv & _).
    exists k, v. split; [|split].
    + change (Num 16) with (Num (Z.of_nat 16)). rewrite !randN_spec.
      cbn [fst snd]. rewrite !Buffer_from_array_drawn.
      fold (drawnKey rng). fold (drawnIV rng).
      unfold createCipheriv. now rewrite Hk, Hv.
    + rewrite encryptTimestamp_length.
      replace (String.length (Number_toString timestamp) / 16)%nat with 1%nat;
        [reflexivity|].
      apply Nat.div_unique with
        (r := (String.length (Number_toString timestamp) - 16)%nat); lia.
    + now apply createChallenge_long.
Qed.

(** C7. Whenever [createChallenge] returns, the encoded timestamp is two
    texts of 32 lowercase hexadecimal characters each, joined by the one
    colon it holds. *)
Theorem createChallenge_encodedTimestamp_shape
    (timestamp : number) (rng rng' : G) (c : Challenge) :
  createChallenge timestamp rng = Ok (c, rng') ->
  countChar ":" (encodedTimestamp c) = 1%nat
  /\ exists encoded iv,
       encodedTimestamp c = encoded ++ String ":" iv
       /\ String.length encoded = 32%nat
       /\ String.length iv = 32%nat
       /\ string_forallb isLowerHex encoded = true
       /\ string_forallb isLowerHex iv = true.
Proof.
  intros (k & v & Hk & Hv & H32 & -> & _)%createChallenge_Ok.
  cbn [encodedTimestamp]. split.
  - rewrite countChar_app. cbn [countChar].
    rewrite !countChar_lowerHex;
      [reflexivity | apply Buffer_toString_hex_lowerHex
       | apply encryptTimestamp_lowerHex].
  - eexists _, _. split; [reflexivity|].
    split; [exact H32|].
    split; [now rewrite Buffer_toString_hex_length, drawnIV_length|].
    split; [apply encryptTimestamp_lowerHex | apply Buffer_toString_hex_lowerHex].
Qed.

Lemma toUint8_low_byte (z : Z) :
  Z.of_N (Byte.to_N (toUint8 (Some (Num z)))) = z mod 256.
Proof.
  cbn [toUint8]. unfold byteOfN.
  pose proof (Z.mod_pos_bound z 256 ltac:(lia)) as Hz.
  assert (Hn : (Z.to_N (z mod 256) mod 256 = Z.to_N (z mod 256))%N)
    by (apply N.mod_small; lia).
  rewrite Hn.
  destruct (Byte.of_N (Z.to_N (z mod 256))) as [b|] eqn:Hb.
  - apply Byte.to_of_N in Hb. rewrite Hb. lia.
  - apply Byte.of_N_None_iff in Hb. lia.
Qed.

(** C8. Whenever [createChallenge] returns, the secret key has exactly 16
    bytes: the first 16 values of the generator, in order, each cut to its
    low byte (the value modulo 256). *)
Theorem createChallenge_secretKey
    (timestamp : number) (rng rng' : G) (c : Challenge) :
  createChallenge timestamp rng = Ok (c, rng') ->
  List.length (secretKey c) = 16%nat
  /\ secretKey c = map (fun v => toUint8 (Some v)) (fst (draws 16 rng))
  /\ forall z, Z.of_N (Byte.to_N (toUint8 (Some (Num z)))) = z mod 256.
Proof.
  intros (k & v & Hk & Hv & H32 & -> & _)%createChallenge_Ok.
  cbn [secretKey]. split; [apply drawnKey_length|].
  split; [reflexivity | exact toUint8_low_byte].
Qed.

Lemma drawn_32 (rng : G) :
  fst (draws 32 rng) = (fst (draws 16 rng) ++ fst (draws 16 (snd (draws 16 rng))))%list
  /\ snd (draws 32 rng) = snd (draws 16 (snd (draws 16 rng))).
Proof. change 32%nat with (16 + 16)%nat. now rewrite draws_add. Qed.

End ChallengeClaims.

Lemma same_draws_same_buffers
    {G1 G2 : Type} {RG1 : RandomGenerator G1} {RG2 : RandomGenerator G2}
    (rng1 : G1) (rng2 : G2) :
  fst (draws 32 rng1) = fst (draws 32 rng2) ->
  drawnKey rng1 = drawnKey rng2 /\ drawnIV rng1 = drawnIV rng2.
Proof.
  intros H.
  destruct (drawn_32 rng1) as [H1 _], (drawn_32 rng2) as [H2 _].
  rewrite H1, H2 in H.
  apply app_eq_app in H as [l [[Ha Hb] | [Ha Hb]]].
  - assert (l = []) as ->.
    { apply (f_equal (@List.length _)) in Ha.
      rewrite length_app, !draws_length in Ha.
      destruct l; [reflexivity | cbn in Ha; lia]. }
    rewrite app_nil_r in Ha. cbn [app] in Hb.
    unfold drawnKey, drawnIV. now rewrite Ha, Hb.
  - assert (l = []) as ->.
    { apply (f_equal (@List.length _)) in Ha.
      rewrite length_app, !draws_length in Ha.
      destruct l; [reflexivity | cbn in Ha; lia]. }
    rewrite app_nil_r in Ha. cbn [app] in Hb.
    unfold drawnKey, drawnIV. now rewrite Ha, Hb.
Qed.

(** C9. [createChallenge] is a function of the timestamp and the generator
    state: two runs on the same state give the same result.  When it
    returns, the returned state is the given one advanced by the 32 draws,
    and the generator matters through the 32 values only: a generator that
    yields the same values gives the same challenge. *)
Theorem createChallenge_deterministic
    {G : Type} {RG : RandomGenerator G} {C : BlockCipher}
    (timestamp : number) (rng : G) :
  (forall r1 r2,
     r1 = createChallenge timestamp rng -> r2 = createChallenge timestamp rng ->
     r1 = r2)
  /\ (forall c rng',
        createChallenge timestamp rng = Ok (c, rng') -> rng' = snd (draws 32 rng))
  /\ (forall (G2 : Type) (RG2 : RandomGenerator G2) (rng2 : G2),
        fst (draws 32 rng2) = fst (draws 32 rng) ->
        challengeOf (createChallenge timestamp rng2)
        = challengeOf (createChallenge timestamp rng)).
Proof.
  split; [congruence|]. split.
  - intros c rng' (k & v & _ & _ & _ & _ & ->)%createChallenge_Ok.
    symmetry. apply drawn_32.
  - intros G2 RG2 rng2 Hsame.
    destruct (same_draws_same_buffers rng2 rng Hsame) as [Hkey Hiv].
    destruct (createChallenge_shape timestamp rng) as (k & v & Hk & Hv & ->).
    destruct (createChallenge_shape timestamp rng2) as (k2 & v2 & Hk2 & Hv2 & ->).
    rewrite Hkey in *. rewrite Hiv in *.
    assert (k2 = k) as -> by congruence.
    assert (v2 = v) as -> by congruence.
    destruct (castEncodedTimestampEncryptedPart _); reflexivity.
Qed.

(** ** Decoding a challenge *)

(** C2 (amended). [decodeTimestamp] throws exactly when: the text has no
    colon, so that the IV is [undefined] (parts after the second are
    ignored); or the key is not 16 bytes; or the IV part, read as
    hexadecimal up to its first ill-formed pair (which never fails by
    itself), is not 16 bytes; or the encrypted part has odd length; or the
    decryption of the encrypted part, read the same lenient way, fails; or
    the strict parser refuses the decrypted text.  In every other case it
    returns the integer the strict parser reads from the decrypted text. *)
Theorem decodeTimestamp_errors {C : BlockCipher} (e : string) (key : Buffer) :
  (throws (decodeTimestamp e key) <->
   (exists encoded, split ":" e = [encoded])
   \/ exists encoded ivHex rest,
        split ":" e = encoded :: ivHex :: rest
        /\ (toBlock key = None
            \/ toBlock (Buffer_from_hex ivHex) = None
            \/ Nat.even (String.length encoded) = false
            \/ exists k v,
                 toBlock key = Some k
                 /\ toBlock (Buffer_from_hex ivHex) = Some v
                 /\ (throws (decipher k v (Buffer_from_hex encoded))
                     \/ exists payload,
                          decipher k v (Buffer_from_hex encoded) = Ok payload
                          /\ throws (parseNonNegativeInteger
                                       (Buffer_toString_utf8 payload)))))
  /\ (forall n,
        decodeTimestamp e key = Ok n <->
        exists encoded ivHex rest k v payload,
          split ":" e = encoded :: ivHex :: rest
          /\ toBlock key = Some k
          /\ toBlock (Buffer_from_hex ivHex) = Some v
          /\ Nat.even (String.length encoded) = true
          /\ decipher k v (Buffer_from_hex encoded) = Ok payload
          /\ parseNonNegativeInteger (Buffer_toString_utf8 payload) = Ok n).
Proof.
  split; [|intros n; apply decodeTimestamp_Ok].
  rewrite decodeTimestamp_steps.
  destruct (split ":" e) as [|encoded [|ivHex rest]] eqn:Hsplit.
  - destruct e as [|c e]; cbn in Hsplit; [discriminate|].
    destruct (Ascii.eqb c ":"); [discriminate|].
    destruct (split ":" e) as [|? ?]; discriminate.
  - split; [intros _; left; now exists encoded | intros _; now eexists].
  - split.
    + intros Hthrow. right. exists encoded, ivHex, rest. split; [reflexivity|].
      destruct (toBlock key) as [k|]; [|now left].
      destruct (toBlock (Buffer_from_hex ivHex)) as [v|]; [|now right; left].
      destruct (Nat.even (String.length encoded)); [|now right; right; left].
      right; right; right. exists k, v. split; [reflexivity|]. split; [reflexivity|].
      destruct (decipher k v (Buffer_from_hex encoded)) as [payload | err].
      * right. exists payload. split; [reflexivity | exact Hthrow].
      * left. now exists err.
    + intros [[encoded' [=]] | (encoded' & ivHex' & rest' & [= <- <- <-] & H)].
      destruct H as [-> | [-> | [-> | (k & v & -> & -> & H)]]].
      * now eexists.
      * destruct (toBlock key); now eexists.
      * destruct (toBlock key), (toBlock (Buffer_from_hex ivHex)); now eexists.
      * destruct (Nat.even (String.length encoded)); [|now eexists].
        destruct H as [[err ->] | (payload & -> & H)]; [now exists err | exact H].
Qed.

(** ** The park *)

(** C4. [putChallenge] on the empty park gives the park with the challenge,
    holding the given encoded timestamp; [putSolution] on a park with a
    challenge gives a solved park that keeps its encoded timestamp and
    holds the given timestamp and secret key as they are, whatever they
    are. *)
Theorem park_transitions
    (e : string) (t : number) (k : string) (empty challenged : PublicPark) :
  isEmptyPark empty ->
  isParkWithChallenge challenged ->
  (isParkWithChallenge (putChallenge e empty)
   /\ park_tag (putChallenge e empty) = TagParkWithChallenge
   /\ park_encodedTimestamp (putChallenge e empty) = Some e)
  /\ (isSolvedPark (putSolution t k challenged)
      /\ park_tag (putSolution t k challenged) = TagSolvedPark
      /\ park_encodedTimestamp (putSolution t k challenged)
         = park_encodedTimestamp challenged
      /\ park_timestamp (putSolution t k challenged) = Some t
      /\ park_secretKey (putSolution t k challenged) = Some k).
Proof.
  intros -> [e' ->]. split.
  - split; [now exists e | split; reflexivity].
  - split; [now exists e', k, t | repeat split].
Qed.

(** C5 (amended). The solved park that [putSolution] makes holds the given
    timestamp as it is, without a check; a timestamp that [decodeTimestamp]
    returned is an integer and is not negative. *)
Theorem putSolution_timestamp {C : BlockCipher}
    (t : number) (k : string) (challenged : PublicPark) :
  isParkWithChallenge challenged ->
  isSolvedPark (putSolution t k challenged)
  /\ park_timestamp (putSolution t k challenged) = Some t
  /\ forall e key,
       decodeTimestamp e key = Ok t -> exists z, t = Num z /\ 0 <= z.
Proof.
  intros [e' ->]. split; [now exists e', k, t|]. split; [reflexivity|].
  intros e key (_ & _ & _ & _ & _ & payload & _ & _ & _ & _ & _ & H)%decodeTimestamp_Ok.
  apply parseNonNegativeInteger_Ok in H as (z & _ & _ & Hz & ->).
  now exists z.
Qed.

(** ** The whole handshake *)

(** For a timestamp of at most 15 digits the script ends in the solved park
    that holds the encoded timestamp, the key in hexadecimal and the
    timestamp. *)
Lemma handshake_solved
    {G : Type} {RG : RandomGenerator G} {C : BlockCipher}
    {CC : BlockCipherCorrect C} (t : Z) (rng : G) :
  0 <= t < 10 ^ 15 ->
  exists c rng',
    createChallenge (Num t) rng = Ok (c, rng')
    /\ handshake (Num t) rng
       = Ok (_SolvedPark (encodedTimestamp c)
               (Buffer_toString_hex (secretKey c)) (Num t)).
Proof.
  intros Ht.
  assert (Hlen : (String.length (Number_toString (Num t)) <= 15)%nat)
    by (apply Number_toString_length; [exact Ht | lia]).
  destruct (createChallenge_short (Num t) rng Hlen) as (k & v & Hk & Hv & Hc).
  eexists _, _. split; [exact Hc|].
  unfold handshake. rewrite Hc. cbn [bind putChallenge park_encodedTimestamp
    encodedTimestamp secretKey].
  rewrite decodeTimestamp_encrypted by solve [lia | assumption].
  cbn [bind]. unfold castSecretKey, secretKeyCodec_decode, BYTE_RESTRICTION.
  rewrite cast32, Buffer_toString_hex_length, drawnKey_length.
  reflexivity.
Qed.

(** * The program run on AES-128 and the sample generator *)

Example createChallenge_sample :
  createChallenge (Num 1700000000000) 42 = Ok (sampleChallenge, 968547210).
Proof. vm_compute. reflexivity. Qed.

(** Sixteen digits make two blocks of ciphertext. *)
Example encryptTimestamp_16_digits :
  match createCipheriv (Buffer_from_hex "1bb891f6f764cd8293d0c9ceeffc85da")
          (Buffer_from_hex "0be801a6e7943d328300397edf2cf58a") with
  | Ok cipher =>
      encryptTimestamp (Num (10 ^ 15)) cipher
      = "3df944e4b6fde407f50c85cc07dae5ba6421a945dd751c0e301f8d5c1eb5803c"
  | Throw _ => False
  end.
Proof. vm_compute. reflexivity. Qed.

(** C1 fails as stated: 10^15 is a canonical decimal text of 16 digits, and
    [createChallenge] throws on it, so that there is nothing to decode. *)
Lemma round_trip_fails_on_16_digits :
  0 <= 10 ^ 15
  /\ Number_toString (Num (10 ^ 15)) = "1000000000000000"
  /\ parseNonNegativeInteger "1000000000000000" = Ok (Num (10 ^ 15))
  /\ createChallenge (Num (10 ^ 15)) 42
     = Throw (Error (showDecodeError "EncodedTimestampEncryptedPart"))
  /\ ~ exists c rng',
         createChallenge (Num (10 ^ 15)) 42 = Ok (c, rng')
         /\ decodeTimestamp (encodedTimestamp c) (secretKey c) = Ok (Num (10 ^ 15)).
Proof.
  split; [lia|]. split; [vm_compute; reflexivity|].
  split; [vm_compute; reflexivity|].
  split; [vm_compute; reflexivity|].
  intros (c & rng' & H & _). vm_compute in H. discriminate H.
Qed.

Lemma createChallenge_decodeTimestamp_round_trip_witness :
  0 <= 1700000000000 < 10 ^ 15
  /\ exists c rng',
       createChallenge (Num 1700000000000) 42 = Ok (c, rng')
       /\ decodeTimestamp (encodedTimestamp c) (secretKey c)
          = Ok (Num 1700000000000).
Proof.
  split; [lia|].
  apply (createChallenge_decodeTimestamp_round_trip 1700000000000 (42 : Z)). lia.
Defined.

(** C2 fails as stated: a text of three parts, and a text whose IV part
    ends in two characters that are not hexadecimal, are both decoded
    without an error. *)
Lemma decodeTimestamp_ignores_extra_parts :
  (split ":" "166a33bab0e3dda49a07a6ac6ed4a295:0be801a6e7943d328300397edf2cf58a:zz"
   = ["166a33bab0e3dda49a07a6ac6ed4a295"; "0be801a6e7943d328300397edf2cf58a"; "zz"]
   /\ decodeTimestamp
        "166a33bab0e3dda49a07a6ac6ed4a295:0be801a6e7943d328300397edf2cf58a:zz"
        (Buffer_from_hex "1bb891f6f764cd8293d0c9ceeffc85da")
      = Ok (Num 1700000000000))
  /\ (split ":" "166a33bab0e3dda49a07a6ac6ed4a295:0be801a6e7943d328300397edf2cf58azz"
      = ["166a33bab0e3dda49a07a6ac6ed4a295"; "0be801a6e7943d328300397edf2cf58azz"]
      /\ decodeTimestamp
           "166a33bab0e3dda49a07a6ac6ed4a295:0be801a6e7943d328300397edf2cf58azz"
           (Buffer_from_hex "1bb891f6f764cd8293d0c9ceeffc85da")
         = Ok (Num 1700000000000)).
Proof. vm_compute. repeat split; reflexivity. Qed.

(** C3 fails as stated: both draws are 16 bytes, 32 hexadecimal characters,
    and [createChallenge] throws all the same. *)
Lemma createChallenge_throws_on_16_digits :
  String.length
    (Buffer_toString_hex (Buffer_from_array (fst (randN (Num 16) 42)))) = 32%nat
  /\ String.length
       (Buffer_toString_hex
          (Buffer_from_array (fst (randN (Num 16) (snd (randN (Num 16) 42))))))
     = 32%nat
  /\ createChallenge (Num (10 ^ 15)) 42
     = Throw (Error (showDecodeError "EncodedTimestampEncryptedPart")).
Proof. vm_compute. repeat split; reflexivity. Qed.

Lemma park_transitions_witness :
  isEmptyPark EmptyPark
  /\ isParkWithChallenge (_ParkWithChallenge (encodedTimestamp sampleChallenge))
  /\ park_timestamp
       (putSolution (Num 1700000000000) "1bb891f6f764cd8293d0c9ceeffc85da"
          (_ParkWithChallenge (encodedTimestamp sampleChallenge)))
     = Some (Num 1700000000000).
Proof.
  assert (He : isEmptyPark EmptyPark) by reflexivity.
  assert (Hc : isParkWithChallenge
                 (_ParkWithChallenge (encodedTimestamp sampleChallenge)))
    by (eexists; reflexivity).
  split; [exact He|]. split; [exact Hc|].
  apply (park_transitions (encodedTimestamp sampleChallenge) (Num 1700000000000)
           "1bb891f6f764cd8293d0c9ceeffc85da" EmptyPark _ He Hc).
Defined.

(** C5 fails as stated: [putSolution] makes a solved park with the
    timestamp -1. *)
Lemma putSolution_negative_timestamp :
  isParkWithChallenge (_ParkWithChallenge (encodedTimestamp sampleChallenge))
  /\ isSolvedPark
       (putSolution (Num (-1)) "1bb891f6f764cd8293d0c9ceeffc85da"
          (_ParkWithChallenge (encodedTimestamp sampleChallenge)))
  /\ park_timestamp
       (putSolution (Num (-1)) "1bb891f6f764cd8293d0c9ceeffc85da"
          (_ParkWithChallenge (encodedTimestamp sampleChallenge)))
     = Some (Num (-1))
  /\ ~ 0 <= -1.
Proof.
  split; [eexists; reflexivity|].
  split; [eexists _, _, _; reflexivity|]. split; [reflexivity | lia].
Qed.

Lemma putSolution_timestamp_witness :
  isParkWithChallenge (_ParkWithChallenge (encodedTimestamp sampleChallenge))
  /\ park_timestamp
       (putSolution (Num 1700000000000) "1bb891f6f764cd8293d0c9ceeffc85da"
          (_ParkWithChallenge (encodedTimestamp sampleChallenge)))
     = Some (Num 1700000000000).
Proof.
  assert (Hc : isParkWithChallenge
                 (_ParkWithChallenge (encodedTimestamp sampleChallenge)))
    by (eexists; reflexivity).
  split; [exact Hc|].
  apply (putSolution_timestamp (Num 1700000000000)
           "1bb891f6f764cd8293d0c9ceeffc85da" _ Hc).
Defined.

Lemma createChallenge_encodedTimestamp_shape_witness :
  createChallenge (Num 1700000000000) 42 = Ok (sampleChallenge, 968547210)
  /\ countChar ":" (encodedTimestamp sampleChallenge) = 1%nat.
Proof.
  assert (H : createChallenge (Num 1700000000000) 42
              = Ok (sampleChallenge, 968547210)) by (vm_compute; reflexivity).
  split; [exact H|].
  apply (createChallenge_encodedTimestamp_shape _ _ _ _ H).
Defined.

Lemma createChallenge_secretKey_witness :
  createChallenge (Num 1700000000000) 42 = Ok (sampleChallenge, 968547210)
  /\ List.length (secretKey sampleChallenge) = 16%nat.
Proof.
  assert (H : createChallenge (Num 1700000000000) 42
              = Ok (sampleChallenge, 968547210)) by (vm_compute; reflexivity).
  split; [exact H|].
  apply (createChallenge_secretKey _ _ _ _ H).
Defined.

Lemma createChallenge_depends_on_text_length_witness :
  (String.length (Number_toString (Num 1700000000000)) <= 15)%nat
  /\ (16 <= String.length (Number_toString (Num (10 ^ 15))) <= 31)%nat
  /\ (exists c rng', createChallenge (Num 1700000000000) 42 = Ok (c, rng'))
  /\ createChallenge (Num (10 ^ 15)) 42
     = Throw (Error (showDecodeError "EncodedTimestampEncryptedPart")).
Proof.
  assert (H1 : (String.length (Number_toString (Num 1700000000000)) <= 15)%nat)
    by (vm_compute; lia).
  assert (H2 : (16 <= String.length (Number_toString (Num (10 ^ 15))) <= 31)%nat)
    by (vm_compute; lia).
  split; [exact H1|]. split; [exact H2|]. split.
  - exact (proj1 (createChallenge_depends_on_text_length
                    (Num 1700000000000) (42 : Z)) H1).
  - destruct (proj1 (proj2 (createChallenge_depends_on_text_length
                              (Num (10 ^ 15)) (42 : Z))) H2)
      as (k & v & _ & _ & H). exact H.
Defined.

(** * Further properties of the code *)

(** ** utils.ts *)

(** X1. [castNonNegativeInteger] returns its argument, unchanged, exactly
    when it is an integer that is not negative; on [NaN] and on a negative
    integer it throws the panic that quotes the number. *)
Theorem castNonNegativeInteger_total (p : number) :
  (geZero p = true -> castNonNegativeInteger p = Ok p)
  /\ (geZero p = false ->
      castNonNegativeInteger p =
      Throw (Error ("panic! wrong non negative integer " ++ Number_toString p
                    ++ " for castNonNegativeInteger")))
  /\ (forall m, castNonNegativeInteger p = Ok m -> m = p /\ geZero p = true).
Proof.
  unfold castNonNegativeInteger, castEitherC, getFromEitherC,
    nonNegativeIntegerCodec_decode, Int_decode, brand, number_decode.
  destruct p as [|z]; cbn [isNaN Number_isInteger geZero].
  - split; [discriminate|]. split; [intros _; reflexivity | discriminate].
  - destruct (0 <=? z); (split; [|split]);
      solve [intros _; reflexivity | discriminate | intros m [= <-]; auto].
Qed.

Lemma parseInt_negative (z : Z) :
  0 < z -> parseInt (String "-" (natToString z)) = Num (- z).
Proof.
  intros Hz. unfold parseInt. cbn [trimStart].
  change (isWhiteSpace "-") with false. cbv iota.
  rewrite (takeDigits_all _ (natToString_isDigit z)).
  pose proof (decimalDigits_length_pos (Z.to_nat (Z.log2 z)) z "") as Hlen.
  fold (natToString z) in Hlen.
  destruct (natToString z) as [|c s] eqn:Hs; [cbn in Hlen; lia|].
  rewrite <- Hs, natToString_value by lia. f_equal; lia.
Qed.

Lemma parseNonNegativeInteger_toString_negative (z : Z) :
  z < 0 ->
  parseNonNegativeInteger (Number_toString (Num z)) =
  Throw (Error ("panic! wrong non negative integer " ++ Number_toString (Num z)
                ++ " for castNonNegativeInteger")).
Proof.
  intros Hz. unfold parseNonNegativeInteger.
  assert (Hparse : parseInt (Number_toString (Num z)) = Num z).
  { cbn [Number_toString]. destruct (Z.ltb_spec z 0); [|lia].
    rewrite parseInt_negative by lia. f_equal. lia. }
  rewrite Hparse. cbn [isNaN]. rewrite String.eqb_refl. cbn [negb].
  unfold castNonNegativeInteger, castEitherC, getFromEitherC,
    nonNegativeIntegerCodec_decode, Int_decode, brand, number_decode.
  cbn [isNaN Number_isInteger geZero].
  destruct (Z.leb_spec 0 z); [lia | reflexivity].
Qed.

(** X2. The strict parser against [toString], on the safe integers: the
    decimal text of [z] is read back as [z] when [z >= 0], and refused with
    the panic of [castNonNegativeInteger] when [z < 0] (the text of a
    negative integer is read and compared before it is refused). *)
Theorem parseNonNegativeInteger_of_toString (z : Z) :
  isSafeInteger (Num z) = true ->
  parseNonNegativeInteger (Number_toString (Num z)) =
  if 0 <=? z then Ok (Num z)
  else Throw (Error ("panic! wrong non negative integer " ++ Number_toString (Num z)
                     ++ " for castNonNegativeInteger")).
Proof.
  intros _. destruct (Z.leb_spec 0 z) as [Hz | Hz].
  - now apply parseNonNegativeInteger_toString.
  - now apply parseNonNegativeInteger_toString_negative.
Qed.

Lemma parseNonNegativeInteger_of_toString_witness :
  isSafeInteger (Num (-5)) = true
  /\ parseNonNegativeInteger "-5"
     = Throw (Error "panic! wrong non negative integer -5 for castNonNegativeInteger").
Proof.
  split; [reflexivity|].
  exact (parseNonNegativeInteger_of_toString (-5) eq_refl).
Defined.

(** ** The validated strings *)

Lemma cast32_Ok (name s s' : string) :
  castEitherC (Handler (fun e => Error (showDecodeError e)))
    (brand NonEmptyString_decode (fun s => (String.length s =? 32)%nat) name s)
  = Ok s' <-> s' = s /\ String.length s = 32%nat.
Proof.
  rewrite cast32. destruct (Nat.eqb_spec (String.length s) 32) as [H | H].
  - split; [intros [= <-]; auto | intros [-> _]; reflexivity].
  - destruct (Nat.eqb (String.length s) 0); (split; [discriminate | intros [_ ?]; lia]).
Qed.

(** X3. The three casts of parkwalk-core ([castEncodedTimestampEncryptedPart],
    [castIV], [castSecretKey]) check the length and nothing else: each
    returns its argument unchanged when it has exactly 32 characters,
    whatever the characters, and throws on every other text. *)
Theorem casts_check_length_only (s : string) :
  (forall s',
     castEncodedTimestampEncryptedPart s = Ok s' <-> s' = s /\ String.length s = 32%nat)
  /\ (forall s', castIV s = Ok s' <-> s' = s /\ String.length s = 32%nat)
  /\ (forall s', castSecretKey s = Ok s' <-> s' = s /\ String.length s = 32%nat)
  /\ (String.length s <> 32%nat <->
      throws (castEncodedTimestampEncryptedPart s)
      /\ throws (castIV s) /\ throws (castSecretKey s)).
Proof.
  split; [intros s'; apply cast32_Ok|].
  split; [intros s'; apply cast32_Ok|].
  split; [intros s'; apply cast32_Ok|].
  unfold castEncodedTimestampEncryptedPart, castIV, castSecretKey,
    encodedTimestampEncryptedPartCodec_decode, ivCodec_decode,
    secretKeyCodec_decode, BYTE_RESTRICTION.
  rewrite !cast32.
  destruct (Nat.eqb_spec (String.length s) 32) as [H | H].
  - split; [contradiction | intros [[e [=]] _]].
  - split; [|intros _; assumption].
    intros _. destruct (Nat.eqb (String.length s) 0);
      repeat split; eexists; reflexivity.
Qed.

(** ** [randN] *)

(** X4. [randN(n)] returns an array of exactly [n] numbers and no hole: the
    first [n] values of the generator, in the order drawn; and it returns
    the generator that follows the [n]-th draw. *)
Theorem randN_fills_array
    {G : Type} {RG : RandomGenerator G} (n : nat) (rng : G) :
  fst (randN (Num (Z.of_nat n)) rng) = map Some (fst (draws n rng))
  /\ List.length (fst (randN (Num (Z.of_nat n)) rng)) = n
  /\ (forall i, (i < n)%nat ->
        exists v, nth_error (fst (randN (Num (Z.of_nat n)) rng)) i = Some (Some v)
                  /\ nth_error (fst (draws n rng)) i = Some v)
  /\ snd (randN (Num (Z.of_nat n)) rng) = snd (draws n rng).
Proof.
  rewrite randN_spec. cbn [fst snd].
  split; [reflexivity|]. split; [now rewrite length_map, draws_length|].
  split; [|reflexivity].
  intros i Hi.
  destruct (nth_error (fst (draws n rng)) i) as [v|] eqn:Hv.
  - exists v. split; [|reflexivity]. now rewrite nth_error_map, Hv.
  - apply nth_error_None in Hv. rewrite draws_length in Hv. lia.
Qed.

(** X5. Drawing [n + m] numbers at once is drawing [n], then [m] from the
    generator returned: the arrays are joined and the final generator is
    the same. *)
Theorem randN_add
    {G : Type} {RG : RandomGenerator G} (n m : nat) (rng : G) :
  randN (Num (Z.of_nat (n + m))) rng =
  ((fst (randN (Num (Z.of_nat n)) rng)
    ++ fst (randN (Num (Z.of_nat m)) (snd (randN (Num (Z.of_nat n)) rng))))%list,
   snd (randN (Num (Z.of_nat m)) (snd (randN (Num (Z.of_nat n)) rng)))).
Proof.
  rewrite !randN_spec. cbn [fst snd]. rewrite draws_add. cbn [fst snd].
  now rewrite map_app.
Qed.

(** ** [createChallenge] *)

Lemma firstn_skipn_app {A : Type} (a b : list A) (n : nat) :
  List.length a = n -> firstn n (a ++ b) = a /\ skipn n (a ++ b) = b.
Proof.
  intros <-. split.
  - now rewrite firstn_app, firstn_all, Nat.sub_diag, app_nil_r.
  - now rewrite skipn_app, skipn_all, Nat.sub_diag.
Qed.

(** X6. Key and IV come from separate draws: whenever [createChallenge]
    returns, the secret key is the low bytes of draws 1 to 16, and the part
    of the encoded timestamp after the colon is the hexadecimal text of the
    low bytes of draws 17 to 32, which [Buffer.from(_, 'hex')] reads back. *)
Theorem createChallenge_key_and_iv
    {G : Type} {RG : RandomGenerator G} {C : BlockCipher}
    (timestamp : number) (rng rng' : G) (c : Challenge) :
  createChallenge timestamp rng = Ok (c, rng') ->
  secretKey c = map (fun v => toUint8 (Some v)) (firstn 16 (fst (draws 32 rng)))
  /\ exists encoded ivHex,
       split ":" (encodedTimestamp c) = [encoded; ivHex]
       /\ ivHex = Buffer_toString_hex
                    (map (fun v => toUint8 (Some v)) (skipn 16 (fst (draws 32 rng))))
       /\ Buffer_from_hex ivHex
          = map (fun v => toUint8 (Some v)) (skipn 16 (fst (draws 32 rng))).
Proof.
  intros (k & v & Hk & Hv & H32 & -> & _)%createChallenge_Ok.
  destruct (drawn_32 rng) as [H _].
  destruct (firstn_skipn_app (fst (draws 16 rng))
              (fst (draws 16 (snd (draws 16 rng)))) 16 (draws_length 16 rng))
    as [Hfirst Hskip].
  rewrite H, Hfirst, Hskip. cbn [secretKey encodedTimestamp].
  split; [reflexivity|].
  eexists _, _. split.
  - rewrite split_app_separator by apply encryptTimestamp_lowerHex.
    rewrite split_lowerHex by apply Buffer_toString_hex_lowerHex. reflexivity.
  - split; [reflexivity | apply Buffer_from_hex_toString].
Qed.

Lemma createChallenge_key_and_iv_witness :
  createChallenge (Num 1700000000000) 42 = Ok (sampleChallenge, 968547210)
  /\ secretKey sampleChallenge
     = map (fun v => toUint8 (Some v)) (firstn 16 (fst (draws 32 42))).
Proof.
  assert (H : createChallenge (Num 1700000000000) 42
              = Ok (sampleChallenge, 968547210)) by (vm_compute; reflexivity).
  split; [exact H|].
  apply (createChallenge_key_and_iv _ _ _ _ H).
Defined.

(** X7. Of every drawn value only the low byte matters: two generators, of
    any kind, whose first 32 values agree modulo 256 give the same
    challenge for the same timestamp (or the same error). *)
Theorem createChallenge_low_bytes
    {G1 G2 : Type} {RG1 : RandomGenerator G1} {RG2 : RandomGenerator G2}
    {C : BlockCipher} (timestamp : number) (rng1 : G1) (rng2 : G2) :
  map (fun v => toUint8 (Some v)) (fst (draws 32 rng1))
  = map (fun v => toUint8 (Some v)) (fst (draws 32 rng2)) ->
  challengeOf (createChallenge timestamp rng1)
  = challengeOf (createChallenge timestamp rng2).
Proof.
  intros H.
  destruct (drawn_32 rng1) as [H1 _], (drawn_32 rng2) as [H2 _].
  rewrite H1, H2, !map_app in H.
  fold (drawnKey rng1) (drawnIV rng1) (drawnKey rng2) (drawnIV rng2) in H.
  assert (Hkey : drawnKey rng1 = drawnKey rng2).
  { apply (f_equal (firstn 16)) in H.
    now rewrite !(proj1 (firstn_skipn_app _ _ 16 (drawnKey_length _))) in H. }
  assert (Hiv : drawnIV rng1 = drawnIV rng2).
  { apply (f_equal (skipn 16)) in H.
    now rewrite !(proj2 (firstn_skipn_app _ _ 16 (drawnKey_length _))) in H. }
  destruct (createChallenge_shape timestamp rng1) as (k & v & Hk & Hv & ->).
  destruct (createChallenge_shape timestamp rng2) as (k2 & v2 & Hk2 & Hv2 & ->).
  rewrite Hkey in *. rewrite Hiv in *.
  assert (k2 = k) as -> by congruence.
  assert (v2 = v) as -> by congruence.
  destruct (castEncodedTimestampEncryptedPart _); reflexivity.
Qed.

Lemma createChallenge_low_bytes_witness :
  map (fun v => toUint8 (Some v))
    (fst (draws (RG := {| next := shiftedNext |}) 32 42))
  = map (fun v => toUint8 (Some v)) (fst (draws (RG := LCG) 32 42))
  /\ challengeOf (createChallenge (RG := {| next := shiftedNext |})
                    (Num 1700000000000) 42)
     = Ok sampleChallenge.
Proof.
  assert (H : map (fun v => toUint8 (Some v))
                (fst (draws (RG := {| next := shiftedNext |}) 32 42))
              = map (fun v => toUint8 (Some v)) (fst (draws (RG := LCG) 32 42)))
    by (vm_compute; reflexivity).
  split; [exact H|].
  rewrite (createChallenge_low_bytes (RG1 := {| next := shiftedNext |})
             (RG2 := LCG) (Num 1700000000000) 42 42 H).
  vm_compute. reflexivity.
Defined.

(** ** The cipher object, on any number of blocks *)

Section CipherRoundTrip.

Context {C : BlockCipher} {CC : BlockCipherCorrect C}.

Lemma firstn_succ_block (d : list byte) (n : nat) :
  (16 <= List.length d)%nat ->
  firstn (16 * S n) d = (firstn 16 d ++ firstn (16 * n) (skipn 16 d))%list.
Proof.
  intros Hlen.
  replace (16 * S n)%nat with (16 + 16 * n)%nat by lia.
  rewrite <- (firstn_skipn 16 d) at 1.
  rewrite firstn_app, length_firstn, Nat.min_l by assumption.
  rewrite firstn_all2 by (rewrite length_firstn; lia).
  now replace (16 + 16 * n - 16)%nat with (16 * n)%nat by lia.
Qed.

(** What [decryptBlocks] reads back from the output of [encryptBlocks],
    whatever follows it. *)
Lemma decryptBlocks_encryptBlocks (n : nat) :
  forall (k ch : block) (d tail : list byte),
    (16 * n <= List.length d)%nat ->
    decryptBlocks n k ch (fst (encryptBlocks n k ch d) ++ tail)
    = (firstn (16 * n) d, snd (encryptBlocks n k ch d)).
Proof.
  induction n as [|n IH]; intros k ch d tail Hlen; [reflexivity|].
  rewrite firstn_succ_block by lia. cbn [encryptBlocks decryptBlocks].
  destruct (toBlock_length16 (firstn 16 d)) as [p Hp];
    [rewrite length_firstn; lia|].
  rewrite Hp.
  specialize (IH k (encryptBlock k (xorBlock p ch)) (skipn 16 d) tail).
  destruct (encryptBlocks n k (encryptBlock k (xorBlock p ch)) (skipn 16 d))
    as [out ch'] eqn:Henc.
  cbn [fst snd] in *. rewrite <- app_assoc.
  destruct (firstn_skipn_app (fromBlock (encryptBlock k (xorBlock p ch)))
              (out ++ tail) 16 (fromBlock_length _)) as [Hfirst Hskip].
  rewrite Hfirst, Hskip, toBlock_fromBlock, IH by (rewrite length_skipn; lia).
  rewrite decrypt_encrypt, xorBlock_involutive.
  now rewrite (toBlock_Some _ _ Hp).
Qed.

(** Decrypting what a fresh cipher object wrote, [update] and [final],
    gives the data back, whatever its length. *)
Lemma decipher_cipher (k v : block) (data : Buffer) :
  decipher k v
    (fst (Cipher_update {| cipherKey := k; chain := v; pending := [] |} data)
     ++ Cipher_final
          (snd (Cipher_update {| cipherKey := k; chain := v; pending := [] |} data)))%list
  = Ok data.
Proof.
  set (n := (List.length data / 16)%nat).
  assert (Hn : (16 * n <= List.length data)%nat)
    by (pose proof (Nat.div_mod_eq (List.length data) 16); lia).
  assert (Hrest : (List.length (skipn (16 * n) data) < 16)%nat).
  { rewrite length_skipn.
    pose proof (Nat.div_mod_eq (List.length data) 16).
    pose proof (Nat.mod_upper_bound (List.length data) 16). lia. }
  pose proof (decryptBlocks_encryptBlocks n k v data) as Hdec.
  pose proof (encryptBlocks_length n k v data Hn) as Hout.
  unfold Cipher_update. cbn [pending cipherKey chain app]. fold n.
  destruct (encryptBlocks n k v data) as [out ch]. cbn [fst snd] in *.
  unfold Cipher_final. cbn [pending cipherKey chain encryptBlocks].
  assert (Hpad : List.length (pkcs7Pad (skipn (16 * n) data)) = 16%nat)
    by (rewrite pkcs7Pad_length, Nat.div_small by lia; reflexivity).
  destruct (toBlock_length16 _ Hpad) as [p Hp].
  rewrite firstn_all2, Hp by lia. cbn [fst]. rewrite app_nil_r.
  set (final := fromBlock (encryptBlock k (xorBlock p ch))).
  unfold decipher, Decipher_update. cbn [pending cipherKey chain app].
  assert (Hlen : List.length (out ++ final)%list = (16 * (n + 1))%nat)
    by (rewrite length_app, Hout; unfold final; rewrite fromBlock_length; lia).
  rewrite Hlen.
  replace (16 * (n + 1))%nat with ((n + 1) * 16)%nat by lia.
  rewrite Nat.Div0.mod_mul, Nat.div_mul by lia. cbn [Nat.eqb].
  replace (n + 1 - 1)%nat with n by lia.
  rewrite (Hdec final Hn).
  destruct (firstn_skipn_app out final (16 * n) Hout) as [_ ->].
  unfold final.
  rewrite (Decipher_final_one_block k ch p (skipn (16 * n) data))
    by (symmetry; now apply toBlock_Some).
  cbn [bind]. now rewrite firstn_skipn.
Qed.

(** [decodeTimestamp] on the text that the encryption step of
    [createChallenge] writes, of one block or more: the strict parser on
    the decimal text of the timestamp. *)
Lemma decodeTimestamp_encryptTimestamp
    (timestamp : number) (key iv : Buffer) (k v : block) :
  toBlock key = Some k -> toBlock iv = Some v ->
  decodeTimestamp
    (encryptTimestamp timestamp {| cipherKey := k; chain := v; pending := [] |}
     ++ String ":" (Buffer_toString_hex iv))
    key
  = parseNonNegativeInteger (Number_toString timestamp).
Proof.
  intros Hk Hv. rewrite decodeTimestamp_steps.
  rewrite split_app_separator by apply encryptTimestamp_lowerHex.
  rewrite split_lowerHex by apply Buffer_toString_hex_lowerHex.
  rewrite Buffer_from_hex_toString, Hk, Hv.
  unfold encryptTimestamp.
  pose proof (decipher_cipher k v (Buffer_from_utf8 (Number_toString timestamp)))
    as Hround.
  destruct (Cipher_update _ (Buffer_from_utf8 (Number_toString timestamp)))
    as [out c1].
  cbn [fst snd] in Hround.
  rewrite <- Buffer_toString_hex_app, Buffer_toString_hex_length.
  rewrite Nat.even_mul. cbn [Nat.even orb].
  rewrite Buffer_from_hex_toString, Hround. cbn [bind].
  unfold Buffer_toString_utf8, Buffer_from_utf8.
  now rewrite string_of_list_byte_of_string.
Qed.

End CipherRoundTrip.

(** ** [decodeTimestamp] *)

Lemma split_no_separator (s : string) :
  countChar ":" s = 0%nat -> split ":" s = [s].
Proof.
  induction s as [|c s IH]; cbn; [reflexivity|].
  destruct (Ascii.eqb c ":"); [discriminate|].
  cbn. intros H. now rewrite IH.
Qed.

Lemma split_app_no_separator (a b : string) :
  countChar ":" a = 0%nat -> split ":" (a ++ String ":" b) = a :: split ":" b.
Proof.
  induction a as [|c a IH]; cbn; [reflexivity|].
  destruct (Ascii.eqb c ":"); [discriminate|].
  cbn. intros H. now rewrite IH.
Qed.

Lemma split_parts (s : string) :
  Forall (fun part => countChar ":" part = 0%nat) (split ":" s).
Proof.
  induction s as [|c s IH]; cbn [split].
  - repeat constructor.
  - destruct (Ascii.eqb c ":") eqn:Hc.
    + constructor; [reflexivity | assumption].
    + destruct (split ":" s) as [|part parts].
      * repeat constructor. cbn. now rewrite Hc.
      * inversion IH as [|? ? Hpart Hparts]; subst.
        constructor; [cbn; now rewrite Hc | assumption].
Qed.

Section DecodeExtras.

Context {C : BlockCipher}.

(** X9. [decodeTimestamp] reads the first two parts of the text and never
    what follows a second colon: its result, value or error, is that of the
    first two parts alone. *)
Theorem decodeTimestamp_first_two_parts
    (e encoded ivHex : string) (rest : list string) (key : Buffer) :
  split ":" e = encoded :: ivHex :: rest ->
  decodeTimestamp e key = decodeTimestamp (encoded ++ String ":" ivHex) key.
Proof.
  intros Hsplit. rewrite !decodeTimestamp_steps, Hsplit.
  pose proof (split_parts e) as Hparts. rewrite Hsplit in Hparts.
  inversion Hparts as [|? ? Henc Hrest]; subst.
  inversion Hrest as [|? ? Hiv _]; subst.
  now rewrite split_app_no_separator, split_no_separator.
Qed.

(** X10. A ciphertext that is not a whole number of blocks is never
    decoded: when the encrypted part, read as hexadecimal up to its first
    ill-formed pair, is empty or not a multiple of 16 bytes,
    [decodeTimestamp] throws, whatever the key and the IV. *)
Theorem decodeTimestamp_partial_block
    (e encoded ivHex : string) (rest : list string) (key : Buffer) :
  split ":" e = encoded :: ivHex :: rest ->
  Buffer_from_hex encoded = []
  \/ (List.length (Buffer_from_hex encoded) mod 16 <> 0)%nat ->
  throws (decodeTimestamp e key).
Proof.
  intros Hsplit Hsize. rewrite decodeTimestamp_steps, Hsplit.
  destruct (toBlock key) as [k|]; [|now eexists].
  destruct (toBlock (Buffer_from_hex ivHex)) as [v|]; [|now eexists].
  destruct (Nat.even (String.length encoded)); [|now eexists].
  rewrite (decipher_wrong_length k v _ Hsize). now eexists.
Qed.

End DecodeExtras.

Lemma decodeTimestamp_first_two_parts_witness :
  split ":" "166a33bab0e3dda49a07a6ac6ed4a295:0be801a6e7943d328300397edf2cf58a:zz:"
  = ["166a33bab0e3dda49a07a6ac6ed4a295"; "0be801a6e7943d328300397edf2cf58a"; "zz"; ""]
  /\ decodeTimestamp
       "166a33bab0e3dda49a07a6ac6ed4a295:0be801a6e7943d328300397edf2cf58a:zz:"
       (secretKey sampleChallenge)
     = decodeTimestamp (encodedTimestamp sampleChallenge) (secretKey sampleChallenge).
Proof.
  assert (H : split ":"
                "166a33bab0e3dda49a07a6ac6ed4a295:0be801a6e7943d328300397edf2cf58a:zz:"
              = ["166a33bab0e3dda49a07a6ac6ed4a295";
                 "0be801a6e7943d328300397edf2cf58a"; "zz"; ""])
    by (vm_compute; reflexivity).
  split; [exact H|].
  exact (decodeTimestamp_first_two_parts _ _ _ _ (secretKey sampleChallenge) H).
Defined.

Lemma decodeTimestamp_partial_block_witness :
  split ":" "166a33bab0e3dda49a07a6ac6ed4a2:0be801a6e7943d328300397edf2cf58a"
  = ["166a33bab0e3dda49a07a6ac6ed4a2"; "0be801a6e7943d328300397edf2cf58a"]
  /\ (List.length (Buffer_from_hex "166a33bab0e3dda49a07a6ac6ed4a2") mod 16 <> 0)%nat
  /\ throws (decodeTimestamp
               "166a33bab0e3dda49a07a6ac6ed4a2:0be801a6e7943d328300397edf2cf58a"
               (secretKey sampleChallenge)).
Proof.
  assert (H : split ":"
                "166a33bab0e3dda49a07a6ac6ed4a2:0be801a6e7943d328300397edf2cf58a"
              = ["166a33bab0e3dda49a07a6ac6ed4a2"; "0be801a6e7943d328300397edf2cf58a"])
    by (vm_compute; reflexivity).
  assert (H' : (List.length (Buffer_from_hex "166a33bab0e3dda49a07a6ac6ed4a2") mod 16
                <> 0)%nat) by (vm_compute; discriminate).
  split; [exact H|]. split; [exact H'|].
  exact (decodeTimestamp_partial_block _ _ _ _ (secretKey sampleChallenge) H (or_intror H')).
Defined.

(** ** Encoding against decoding *)

Section EncodeDecode.

Context {G : Type} {RG : RandomGenerator G}.
Context {C : BlockCipher} {CC : BlockCipherCorrect C}.

(** X8. [decodeTimestamp] puts no bound on the encrypted part: from the
    text that the cipher of [createChallenge] writes for a safe integer
    that is not negative, joined to the IV, it returns that integer, also
    when the text has two blocks and [createChallenge] would refuse it. *)
Theorem decodeTimestamp_any_length
    (z : Z) (key iv : Buffer) (cipher : CipherState) :
  isSafeInteger (Num z) = true -> 0 <= z ->
  createCipheriv key iv = Ok cipher ->
  decodeTimestamp
    (encryptTimestamp (Num z) cipher ++ String ":" (Buffer_toString_hex iv)) key
  = Ok (Num z).
Proof.
  intros _ Hz Hcipher. unfold createCipheriv in Hcipher.
  destruct (toBlock key) as [k|] eqn:Hk; [|discriminate].
  destruct (toBlock iv) as [v|] eqn:Hv; [|discriminate].
  injection Hcipher as <-.
  rewrite (decodeTimestamp_encryptTimestamp (Num z) key iv k v Hk Hv).
  now apply parseNonNegativeInteger_toString.
Qed.

(** X12. [createChallenge] does not check its timestamp, [decodeTimestamp]
    does: for [NaN] and for a negative integer (of at most 15 characters
    with its sign) the challenge is created, and decoding it with its own
    key throws. *)
Theorem createChallenge_undecodable (timestamp : number) (rng : G) :
  geZero timestamp = false ->
  (String.length (Number_toString timestamp) <= 15)%nat ->
  exists c rng',
    createChallenge timestamp rng = Ok (c, rng')
    /\ throws (decodeTimestamp (encodedTimestamp c) (secretKey c)).
Proof.
  intros Hneg Hlen.
  destruct (createChallenge_short timestamp rng Hlen) as (k & v & Hk & Hv & Hc).
  eexists _, _. split; [exact Hc|]. cbn [encodedTimestamp secretKey].
  rewrite (decodeTimestamp_encryptTimestamp timestamp _ _ k v Hk Hv).
  destruct timestamp as [|z].
  - eexists. vm_compute. reflexivity.
  - cbn [geZero] in Hneg. apply Z.leb_gt in Hneg.
    rewrite parseNonNegativeInteger_toString_negative by assumption.
    now eexists.
Qed.

End EncodeDecode.

Lemma decodeTimestamp_any_length_witness :
  isSafeInteger (Num (10 ^ 15)) = true /\ 0 <= 10 ^ 15
  /\ decodeTimestamp
       "3df944e4b6fde407f50c85cc07dae5ba6421a945dd751c0e301f8d5c1eb5803c:0be801a6e7943d328300397edf2cf58a"
       (secretKey sampleChallenge)
     = Ok (Num (10 ^ 15)).
Proof.
  assert (Hsafe : isSafeInteger (Num (10 ^ 15)) = true) by reflexivity.
  assert (Hz : 0 <= 10 ^ 15) by lia.
  split; [exact Hsafe|]. split; [exact Hz|].
  exact (decodeTimestamp_any_length (10 ^ 15) (secretKey sampleChallenge)
           (Buffer_from_hex "0be801a6e7943d328300397edf2cf58a") _
           Hsafe Hz eq_refl).
Defined.

Lemma createChallenge_undecodable_witness :
  geZero (Num (-5)) = false
  /\ (String.length (Number_toString (Num (-5))) <= 15)%nat
  /\ exists c rng',
       createChallenge (Num (-5)) 42 = Ok (c, rng')
       /\ throws (decodeTimestamp (encodedTimestamp c) (secretKey c)).
Proof.
  assert (Hneg : geZero (Num (-5)) = false) by reflexivity.
  assert (Hlen : (String.length (Number_toString (Num (-5))) <= 15)%nat)
    by (vm_compute; lia).
  split; [exact Hneg|]. split; [exact Hlen|].
  exact (createChallenge_undecodable (Num (-5)) (42 : Z) Hneg Hlen).
Defined.

(** ** The size of a timestamp *)

Lemma pow10_succ (k : nat) : 10 ^ Z.of_nat (S k) = 10 * 10 ^ Z.of_nat k.
Proof. rewrite Nat2Z.inj_succ, Z.pow_succ_r by lia. reflexivity. Qed.

Lemma decimalDigits_length_lower (fuel : nat) :
  forall z acc (k : nat),
    10 ^ Z.of_nat k <= z < 10 ^ (Z.of_nat fuel + 1) ->
    (k + 1 + String.length acc <= String.length (decimalDigits fuel z acc))%nat.
Proof.
  assert (Hsmall : forall z k, 10 ^ Z.of_nat k <= z -> z < 10 -> k = O).
  { intros z [|k] Hk Hz; [reflexivity|].
    rewrite pow10_succ in Hk.
    pose proof (Z.pow_pos_nonneg 10 (Z.of_nat k) ltac:(lia) ltac:(lia)). lia. }
  induction fuel as [|fuel IH]; intros z acc k Hz; cbn [decimalDigits].
  - change (10 ^ (Z.of_nat 0 + 1)) with 10 in Hz.
    rewrite (Hsmall z k) by lia. cbn. lia.
  - destruct (Z.ltb_spec z 10) as [Hlt | Hge].
    + rewrite (Hsmall z k) by lia. cbn. lia.
    + pose proof (div10_bound z (Z.of_nat fuel) ltac:(lia)) as Hdiv.
      replace (Z.of_nat fuel + 1 + 1) with (Z.of_nat (S fuel) + 1) in Hdiv by lia.
      assert (1 <= z / 10) by (apply Z.div_le_lower_bound; lia).
      destruct k as [|k].
      * specialize (IH (z / 10) (String (digitChar (z mod 10)) acc) O).
        cbn [String.length] in IH. change (10 ^ Z.of_nat 0) with 1 in IH. lia.
      * specialize (IH (z / 10) (String (digitChar (z mod 10)) acc) k).
        cbn [String.length] in IH.
        assert (10 ^ Z.of_nat k <= z / 10).
        { apply Z.div_le_lower_bound; [lia|]. rewrite pow10_succ in Hz. lia. }
        lia.
Qed.

(** The decimal text of [z >= 0] has at most [k] characters exactly when
    [z < 10^k]. *)
Lemma Number_toString_length_iff (z : Z) (k : nat) :
  0 <= z -> (1 <= k)%nat ->
  (String.length (Number_toString (Num z)) <= k)%nat <-> z < 10 ^ Z.of_nat k.
Proof.
  intros Hz Hk. split.
  - intros Hlen. destruct (Z.lt_ge_cases z (10 ^ Z.of_nat k)) as [|Hge]; [assumption|].
    cbn [Number_toString] in Hlen. destruct (Z.ltb_spec z 0); [lia|].
    pose proof (decimalDigits_length_lower (Z.to_nat (Z.log2 z)) z "" k) as Hlow.
    pose proof (natToString_fuel z Hz) as Hfuel. unfold natToString in Hlen.
    cbn [String.length] in Hlow. specialize (Hlow ltac:(lia)). lia.
  - intros Hlt. apply Number_toString_length; [lia | assumption].
Qed.

Section Threshold.

Context {G : Type} {RG : RandomGenerator G}.
Context {C : BlockCipher}.

(** X14. For a safe integer [t >= 0], [createChallenge] returns exactly
    when [t < 10^15]; from [10^15] on it throws, whatever the generator. *)
Theorem createChallenge_threshold (t : Z) (rng : G) :
  isSafeInteger (Num t) = true -> 0 <= t ->
  ((exists c rng', createChallenge (Num t) rng = Ok (c, rng')) <-> t < 10 ^ 15)
  /\ (throws (createChallenge (Num t) rng) <-> 10 ^ 15 <= t).
Proof.
  intros _ Ht.
  pose proof (Number_toString_length_iff t 15 Ht ltac:(lia)) as Hiff.
  change (10 ^ Z.of_nat 15) with (10 ^ 15) in Hiff.
  destruct (Z.lt_ge_cases t (10 ^ 15)) as [Hlt | Hge].
  - destruct (createChallenge_short (Num t) rng (proj2 Hiff Hlt))
      as (k & v & _ & _ & Hc).
    split; split.
    + intros _. assumption.
    + intros _. eauto.
    + intros [e He]. congruence.
    + lia.
  - assert (Hlong : (16 <= String.length (Number_toString (Num t)))%nat).
    { destruct (Nat.le_gt_cases 16 (String.length (Number_toString (Num t))));
        [assumption|].
      assert (t < 10 ^ 15) by (apply Hiff; lia). lia. }
    pose proof (createChallenge_long (Num t) rng Hlong) as Hc.
    split; split.
    + intros (c & rng' & H). congruence.
    + lia.
    + intros _. assumption.
    + intros _. eexists. exact Hc.
Qed.

Context {CC : BlockCipherCorrect C}.

(** X11. The script that ends the module, for a safe integer [t >= 0] as
    timestamp: below [10^15] it never throws, [castSecretKey] accepts the
    key in hexadecimal, and the solved park holds the encoded timestamp of
    the challenge, that key and [t]; from [10^15] on it throws. *)
Theorem handshake_outcome (t : Z) (rng : G) :
  isSafeInteger (Num t) = true -> 0 <= t ->
  (t < 10 ^ 15 ->
   exists c rng',
     createChallenge (Num t) rng = Ok (c, rng')
     /\ castSecretKey (Buffer_toString_hex (secretKey c))
        = Ok (Buffer_toString_hex (secretKey c))
     /\ handshake (Num t) rng
        = Ok (_SolvedPark (encodedTimestamp c)
                (Buffer_toString_hex (secretKey c)) (Num t)))
  /\ (10 ^ 15 <= t -> throws (handshake (Num t) rng)).
Proof.
  intros _ Ht. split.
  - intros Hlt.
    destruct (handshake_solved t rng (conj Ht Hlt)) as (c & rng' & Hc & Hh).
    exists c, rng'. split; [exact Hc|]. split; [|exact Hh].
    apply createChallenge_Ok in Hc as (k & v & _ & _ & _ & -> & _).
    cbn [secretKey].
    unfold castSecretKey, secretKeyCodec_decode, BYTE_RESTRICTION.
    now rewrite cast32, Buffer_toString_hex_length, drawnKey_length.
  - intros Hge.
    pose proof (Number_toString_length_iff t 15 Ht ltac:(lia)) as Hiff.
    change (10 ^ Z.of_nat 15) with (10 ^ 15) in Hiff.
    assert (Hlong : (16 <= String.length (Number_toString (Num t)))%nat).
    { destruct (Nat.le_gt_cases 16 (String.length (Number_toString (Num t))));
        [assumption|].
      assert (t < 10 ^ 15) by (apply Hiff; lia). lia. }
    unfold handshake. rewrite (createChallenge_long (Num t) rng Hlong).
    now eexists.
Qed.

End Threshold.

Lemma createChallenge_threshold_witness :
  isSafeInteger (Num (10 ^ 15)) = true /\ 0 <= 10 ^ 15
  /\ throws (createChallenge (Num (10 ^ 15)) 42).
Proof.
  assert (Hsafe : isSafeInteger (Num (10 ^ 15)) = true) by reflexivity.
  assert (Hz : 0 <= 10 ^ 15) by lia.
  split; [exact Hsafe|]. split; [exact Hz|].
  apply (proj2 (createChallenge_threshold (10 ^ 15) (42 : Z) Hsafe Hz)). lia.
Defined.

Lemma handshake_outcome_witness :
  isSafeInteger (Num 1700000000000) = true /\ 0 <= 1700000000000
  /\ exists c rng',
       createChallenge (Num 1700000000000) 42 = Ok (c, rng')
       /\ castSecretKey (Buffer_toString_hex (secretKey c))
          = Ok (Buffer_toString_hex (secretKey c))
       /\ handshake (Num 1700000000000) 42
          = Ok (_SolvedPark (encodedTimestamp c)
                  (Buffer_toString_hex (secretKey c)) (Num 1700000000000)).
Proof.
  assert (Hsafe : isSafeInteger (Num 1700000000000) = true) by reflexivity.
  assert (Hz : 0 <= 1700000000000) by lia.
  split; [exact Hsafe|]. split; [exact Hz|].
  apply (proj1 (handshake_outcome 1700000000000 (42 : Z) Hsafe Hz)). lia.
Defined.

(** ** The test suite *)

Lemma String_includes_separator (a b : string) :
  String_includes ":" (a ++ String ":" b) = true.
Proof.
  induction a as [|c a IH]; cbn; [reflexivity|].
  rewrite IH. apply orb_true_r.
Qed.

(** X13. The four properties of the test suite hold for every generator
    state when [Date.now()] is an integer [0 <= t < 10^15]: no [expect]
    fails and nothing throws. *)
Theorem tests_pass
    {G : Type} {RG : RandomGenerator G} {C : BlockCipher}
    {CC : BlockCipherCorrect C} (t : Z) (rng : G) :
  0 <= t < 10 ^ 15 ->
  test_createChallenge (Num t) rng = Ok true
  /\ test_decodeTimestamp (Num t) rng = Ok true
  /\ test_putChallenge (Num t) rng = Ok true
  /\ test_putSolution (Num t) rng = Ok true.
Proof.
  intros Ht.
  assert (Hlen : (String.length (Number_toString (Num t)) <= 15)%nat)
    by (apply Number_toString_length; [exact Ht | lia]).
  destruct (createChallenge_short (Num t) rng Hlen) as (k & v & Hk & Hv & Hc).
  pose proof (decodeTimestamp_encrypted t _ _ k v (proj1 Ht) Hlen Hk Hv) as Hd.
  unfold test_createChallenge, test_decodeTimestamp, test_putChallenge,
    test_putSolution.
  rewrite Hc. cbn [bind encodedTimestamp secretKey]. rewrite Hd.
  cbn [bind putChallenge putSolution park_tag park_encodedTimestamp
       park_timestamp park_secretKey Tag_eqb property_toBe number_toBe andb].
  rewrite String_includes_separator, drawnKey_length, !String.eqb_refl, Z.eqb_refl.
  repeat split; reflexivity.
Qed.

Lemma tests_pass_witness :
  0 <= 1700000000000 < 10 ^ 15
  /\ test_decodeTimestamp (Num 1700000000000) 42 = Ok true
  /\ test_putSolution (Num 1700000000000) 42 = Ok true.
Proof.
  assert (Ht : 0 <= 1700000000000 < 10 ^ 15) by lia.
  split; [exact Ht|].
  destruct (tests_pass 1700000000000 (42 : Z) Ht) as (_ & H2 & _ & H4).
  split; assumption.
Defined.

(** ** Challenges in a row *)

Section Successive.

Context {G : Type} {RG : RandomGenerator G} {C : BlockCipher}.

(** X15. A second challenge made from the state that the first returned
    draws on: its key is the low bytes of draws 33 to 48 of the first
    state, and the state it returns is the first state after 64 draws. *)
Theorem createChallenge_twice
    (t1 t2 : number) (rng rng1 rng2 : G) (c1 c2 : Challenge) :
  createChallenge t1 rng = Ok (c1, rng1) ->
  createChallenge t2 rng1 = Ok (c2, rng2) ->
  rng1 = snd (draws 32 rng)
  /\ secretKey c2
     = map (fun v => toUint8 (Some v)) (firstn 16 (skipn 32 (fst (draws 64 rng))))
  /\ rng2 = snd (draws 64 rng).
Proof.
  intros (k1 & v1 & _ & _ & _ & _ & H1)%createChallenge_Ok
         (k2 & v2 & _ & _ & _ & -> & H2)%createChallenge_Ok.
  destruct (drawn_32 rng) as [_ Hs1]. rewrite <- Hs1 in H1.
  destruct (drawn_32 rng1) as [Hf2 Hs2]. rewrite <- Hs2 in H2.
  pose proof (draws_add 32 32 rng) as H64. change (32 + 32)%nat with 64%nat in H64.
  rewrite H64. cbn [fst snd]. subst rng1.
  split; [reflexivity|]. split; [|assumption].
  cbn [secretKey]. unfold drawnKey.
  rewrite (proj2 (firstn_skipn_app _ _ 32 (draws_length 32 rng))).
  rewrite Hf2.
  now rewrite (proj1 (firstn_skipn_app _ _ 16 (draws_length 16 _))).
Qed.

(** X16. Key and IV do not depend on the timestamp: two challenges made
    from the same generator state, for any two timestamps, have the same
    secret key and the same IV part, and return the same state. *)
Theorem createChallenge_same_state
    (t1 t2 : number) (rng rng1 rng2 : G) (c1 c2 : Challenge) :
  createChallenge t1 rng = Ok (c1, rng1) ->
  createChallenge t2 rng = Ok (c2, rng2) ->
  secretKey c1 = secretKey c2
  /\ nth_error (split ":" (encodedTimestamp c1)) 1
     = nth_error (split ":" (encodedTimestamp c2)) 1
  /\ rng1 = rng2.
Proof.
  intros (k1 & v1 & _ & _ & _ & -> & ->)%createChallenge_Ok
         (k2 & v2 & _ & _ & _ & -> & ->)%createChallenge_Ok.
  cbn [secretKey encodedTimestamp].
  split; [reflexivity|]. split; [|reflexivity].
  rewrite !split_app_separator by apply encryptTimestamp_lowerHex.
  reflexivity.
Qed.

End Successive.

Lemma createChallenge_twice_witness :
  createChallenge (Num 1700000000000) 42 = Ok (sampleChallenge, 968547210)
  /\ (exists c2 rng2,
        createChallenge (Num 1700000000001) 968547210 = Ok (c2, rng2)
        /\ rng2 = snd (draws 64 42)).
Proof.
  assert (H1 : createChallenge (Num 1700000000000) 42
               = Ok (sampleChallenge, 968547210)) by (vm_compute; reflexivity).
  split; [exact H1|].
  destruct (createChallenge (Num 1700000000001) 968547210) as [[c2 rng2]|e] eqn:H2;
    [|vm_compute in H2; discriminate H2].
  exists c2, rng2. split; [reflexivity|].
  apply (createChallenge_twice _ _ _ _ _ _ _ H1 H2).
Defined.

Lemma createChallenge_same_state_witness :
  createChallenge (Num 1700000000000) 42 = Ok (sampleChallenge, 968547210)
  /\ (exists c2 rng2,
        createChallenge (Num 5) 42 = Ok (c2, rng2)
        /\ secretKey sampleChallenge = secretKey c2).
Proof.
  assert (H1 : createChallenge (Num 1700000000000) 42
               = Ok (sampleChallenge, 968547210)) by (vm_compute; reflexivity).
  split; [exact H1|].
  destruct (createChallenge (Num 5) 42) as [[c2 rng2]|e] eqn:H2;
    [|vm_compute in H2; discriminate H2].
  exists c2, rng2. split; [reflexivity|].
  apply (createChallenge_same_state _ _ _ _ _ _ _ H1 H2).
Defined.
